(** * Wikipedia extraction: the extractor package, embedded and verified

    Source: [internal/extractor/extractor.go].  The package walks a parsed
    HTML document (goquery selections over golang.org/x/net/html nodes),
    builds a reference index, parses info panels and data tables into
    [Quad]s and resolves citation markers.

    Layout of this file:
    - [GoStrings]  : the functions of Go's [strings] package the code calls;
    - [html]       : the node tree of golang.org/x/net/html;
    - [cascadia]   : the CSS selectors the code uses, and their matching;
    - [goquery]    : selections (lists of node positions) and their methods;
    - the extractor itself, then the colly collector it drives;
    - the notions the properties are stated with, and sample pages;
    - the properties. *)

From Stdlib Require Import Ascii.
From stdpp Require Import base option list strings gmap sorting.

Open Scope string_scope.
Open Scope list_scope.
Open Scope nat_scope.

(* ===================================================================== *)
(** * Go's [strings] package (byte strings) *)
(* ===================================================================== *)

Module GoStrings.

(** [strings.HasPrefix(s, prefix)]. *)
Fixpoint HasPrefix (s prefix : string) {struct prefix} : bool :=
  match prefix, s with
  | EmptyString, _ => true
  | String _ _, EmptyString => false
  | String a p', String b s' => if Ascii.eqb a b then HasPrefix s' p' else false
  end.

(** [strings.Contains(s, substr)]: [substr] occurs at some offset. *)
Fixpoint Contains (s substr : string) : bool :=
  HasPrefix s substr ||
  match s with
  | EmptyString => false
  | String _ s' => Contains s' substr
  end.

(** [s[n:]] for [n <= len(s)]. *)
Fixpoint skip (n : nat) (s : string) : string :=
  match n, s with
  | S n', String _ s' => skip n' s'
  | _, _ => s
  end.

(** [strings.TrimPrefix(s, prefix)]: [s] without the leading [prefix],
    and [s] itself when it does not start with it. *)
Definition TrimPrefix (s prefix : string) : string :=
  if HasPrefix s prefix then skip (String.length prefix) s else s.

(** [strings.Join(elems, sep)]. *)
Fixpoint Join (elems : list string) (sep : string) : string :=
  match elems with
  | [] => ""
  | [e] => e
  | e :: rest => e +:+ sep +:+ Join rest sep
  end.

Definition byte (n : nat) : Ascii.ascii := Ascii.ascii_of_nat n.

(** The one-byte white space of [unicode.IsSpace]:
    TAB, LF, VT, FF, CR and SPACE. *)
Definition asciiSpace (c : Ascii.ascii) : bool :=
  let n := Ascii.nat_of_ascii c in
  (((9 <=? n) && (n <=? 13)) || (n =? 32))%nat.

(** The two-byte UTF-8 sequences that decode to a white-space rune:
    U+0085 (C2 85) and U+00A0 (C2 A0). *)
Definition space2 (a b : Ascii.ascii) : bool :=
  ((Ascii.nat_of_ascii a =? 194) &&
   ((Ascii.nat_of_ascii b =? 133) || (Ascii.nat_of_ascii b =? 160)))%nat.

(** The three-byte sequences: U+1680 (E1 9A 80), U+2000..U+200A
    (E2 80 80..8A), U+2028, U+2029, U+202F (E2 80 A8, A9, AF),
    U+205F (E2 81 9F) and U+3000 (E3 80 80). *)
Definition space3 (a b c : Ascii.ascii) : bool :=
  let x := Ascii.nat_of_ascii a in
  let y := Ascii.nat_of_ascii b in
  let z := Ascii.nat_of_ascii c in
  (((x =? 225) && (y =? 154) && (z =? 128)) ||
   ((x =? 226) && (y =? 128) &&
      (((128 <=? z) && (z <=? 138)) || (z =? 168) || (z =? 169) || (z =? 175))) ||
   ((x =? 226) && (y =? 129) && (z =? 159)) ||
   ((x =? 227) && (y =? 128) && (z =? 128)))%nat.

(** [strings.TrimLeftFunc(s, unicode.IsSpace)]: drop white-space runes
    from the front, rune by rune. *)
Fixpoint trimLeft (s : string) : string :=
  match s with
  | EmptyString => EmptyString
  | String a r1 =>
      if asciiSpace a then trimLeft r1
      else match r1 with
           | String b r2 =>
               if space2 a b then trimLeft r2
               else match r2 with
                    | String c r3 => if space3 a b c then trimLeft r3 else s
                    | EmptyString => s
                    end
           | EmptyString => s
           end
  end.

(** The same from the back, on the reversed string: the bytes of a
    rune arrive last byte first. *)
Fixpoint trimLeftRev (s : string) : string :=
  match s with
  | EmptyString => EmptyString
  | String a r1 =>
      if asciiSpace a then trimLeftRev r1
      else match r1 with
           | String b r2 =>
               if space2 b a then trimLeftRev r2
               else match r2 with
                    | String c r3 => if space3 c b a then trimLeftRev r3 else s
                    | EmptyString => s
                    end
           | EmptyString => s
           end
  end.

Definition trimRight (s : string) : string :=
  String.rev (trimLeftRev (String.rev s)).

(** [strings.TrimSpace(s)]: white space removed at both ends. *)
Definition TrimSpace (s : string) : string := trimRight (trimLeft s).

End GoStrings.

(* ===================================================================== *)
(** * golang.org/x/net/html: the node tree *)
(* ===================================================================== *)

Module html.

Inductive NodeType : Set :=
| ErrorNode | TextNode | DocumentNode | ElementNode | CommentNode | DoctypeNode.

#[global] Instance NodeType_eq_dec : EqDecision NodeType.
Proof. solve_decision. Defined.

Record Attribute : Set := mkAttr { Key : string; Val : string }.

Local Unset Elimination Schemes.
(** [html.Node]: its type, its [Data] (the tag name of an element, the
    characters of a text node), its attributes and its children in
    order.  The sibling and parent pointers of the Go struct are the
    tree structure itself; a node's identity is its position
    (see [path]). *)
Inductive Node : Set :=
| mkNode (Type_ : NodeType) (Data : string) (Attr : list Attribute)
         (children : list Node).
Local Set Elimination Schemes.

Definition Type_ (n : Node) : NodeType := let (t, _, _, _) := n in t.
Definition Data (n : Node) : string := let (_, d, _, _) := n in d.
Definition Attr (n : Node) : list Attribute := let (_, _, a, _) := n in a.
Definition children (n : Node) : list Node := let (_, _, _, c) := n in c.

(** The position of a node below a root: the child indices on the way
    down.  It stands for the Go pointer: two selected nodes are the same
    node exactly when their positions are equal. *)
Definition path : Set := list nat.

Fixpoint nodeAt (root : Node) (p : path) : option Node :=
  match p with
  | [] => Some root
  | i :: p' =>
      match children root !! i with
      | Some c => nodeAt c p'
      | None => None
      end
  end.

(** Every node strictly below [n], in document order (a node before its
    children, children left to right), as positions relative to [n]. *)
Fixpoint descendants (n : Node) : list path :=
  match n with
  | mkNode _ _ _ cs =>
      (fix go (i : nat) (cs : list Node) {struct cs} : list path :=
         match cs with
         | [] => []
         | c :: cs' => ([i] :: map (cons i) (descendants c)) ++ go (S i) cs'
         end) 0%nat cs
  end.

(** The positions of the ancestors of the node at [q]: [n.Parent],
    [n.Parent.Parent], ... are the proper prefixes of [q]. *)
Definition ancestors (q : path) : list path :=
  map (fun i => take i q) (seq 0 (length q)).

(** Document order on positions: an ancestor comes before its
    descendants, an earlier sibling's subtree before a later one's. *)
Fixpoint before (p q : path) : Prop :=
  match p, q with
  | [], [] => False
  | [], _ :: _ => True
  | _ :: _, [] => False
  | i :: p', j :: q' => (i < j)%nat \/ (i = j /\ before p' q')
  end.

(** Shorthands to write documents. *)
Definition text (s : string) : Node := mkNode TextNode s [] [].
Definition elem (tag : string) (attrs : list (string * string))
           (kids : list Node) : Node :=
  mkNode ElementNode tag (map (fun kv => mkAttr kv.1 kv.2) attrs) kids.
Definition document (kids : list Node) : Node := mkNode DocumentNode "" [] kids.

End html.

Import html.

(* ===================================================================== *)
(** * cascadia: the selectors of the extractor and their matching *)
(* ===================================================================== *)

Module cascadia.

(** The compiled form of the selector strings the extractor passes to
    [Find]: type, [#id], [.class], [[key^=val]], [[key*=val]], a compound
    of two on one element, the descendant combinator (a space) and the
    group (a comma). *)
Inductive Sel : Set :=
| tagSelector (tag : string)
| idSelector (id : string)
| classSelector (class : string)
| attrPrefixSelector (key val : string)
| attrSubstrSelector (key val : string)
| compoundSelector (a b : Sel)
| descendantSelector (ancestor s : Sel)
| groupSelector (a b : Sel).

(** [matchAttribute(n, key, f)]: an element one of whose attributes has
    the key and a value accepted by [f]. *)
Definition matchAttribute (n : Node) (key : string) (f : string -> bool) : bool :=
  bool_decide (Type_ n = ElementNode) &&
  existsb (fun a => String.eqb (Key a) key && f (Val a)) (Attr n).

Definition isClassSep (c : Ascii.ascii) : bool :=
  let n := Ascii.nat_of_ascii c in
  ((n =? 32) || (n =? 9) || (n =? 13) || (n =? 10) || (n =? 12))%nat.

(** The pieces of [s] between the separators. *)
Fixpoint fields (s : string) : list string :=
  match s with
  | EmptyString => [EmptyString]
  | String c s' =>
      if isClassSep c then EmptyString :: fields s'
      else match fields s' with
           | t :: ts => String c t :: ts
           | [] => [String c EmptyString]
           end
  end.

(** [matchInclude(val, s)]: [val] is one of the white-space separated
    words of [s] (class names are never empty). *)
Definition matchInclude (val s : string) : bool :=
  bool_decide (val ∈ fields s).

Definition matchNode (f : Node -> bool) (root : Node) (q : path) : bool :=
  match nodeAt root q with
  | Some n => f n
  | None => false
  end.

(** [sel.Match(n)] for the node at position [q] of the tree [root]. *)
Fixpoint Match (s : Sel) (root : Node) (q : path) : bool :=
  match s with
  | tagSelector tag =>
      matchNode (fun n => bool_decide (Type_ n = ElementNode) &&
                          String.eqb (Data n) tag) root q
  | idSelector id =>
      matchNode (fun n => matchAttribute n "id" (fun v => String.eqb v id)) root q
  | classSelector class =>
      matchNode (fun n => matchAttribute n "class" (matchInclude class)) root q
  | attrPrefixSelector key val =>
      matchNode (fun n => matchAttribute n key
                            (fun v => GoStrings.HasPrefix v val)) root q
  | attrSubstrSelector key val =>
      matchNode (fun n => matchAttribute n key
                            (fun v => GoStrings.Contains v val)) root q
  | compoundSelector a b => Match a root q && Match b root q
  | descendantSelector anc s' =>
      Match s' root q && existsb (Match anc root) (ancestors q)
  | groupSelector a b => Match a root q || Match b root q
  end.

End cascadia.

Import cascadia.

(* ===================================================================== *)
(** * goquery: selections *)
(* ===================================================================== *)

Module goquery.

(** A [*goquery.Selection]: its [Nodes], as positions in the document
    the selection belongs to. *)
Definition Selection : Set := list path.

(** [appendWithoutDuplicates(target, nodes)]. *)
Fixpoint appendWithoutDuplicates (target nodes : list path) : list path :=
  match nodes with
  | [] => target
  | n :: ns =>
      if decide (n ∈ target) then appendWithoutDuplicates target ns
      else appendWithoutDuplicates (target ++ [n]) ns
  end.

(** [mapNodes(nodes, f)]: the results of [f] on each node, a node kept
    the first time it comes. *)
Definition mapNodes (nodes : list path) (f : path -> list path) : list path :=
  foldl (fun result n => appendWithoutDuplicates result (f n)) [] nodes.

Section selection.
Variable doc : Node.

(** [s.Find(selector)]: the descendants of the nodes of [s] that match. *)
Definition Find (sel : Sel) (s : Selection) : Selection :=
  mapNodes s (fun p =>
    match nodeAt doc p with
    | Some n => filter (fun q => Is_true (Match sel doc q))
                       (map (app p) (descendants n))
    | None => []
    end).

(** The walk of [Text()] over one node: the characters of the text
    nodes of the subtree, in document order. *)
Fixpoint getNodeText (n : Node) : string :=
  match n with
  | mkNode t data _ cs =>
      (if decide (t = TextNode) then data else "") +:+
      (fix go (cs : list Node) : string :=
         match cs with
         | [] => ""
         | c :: cs' => getNodeText c +:+ go cs'
         end) cs
  end.

Definition textAt (p : path) : string :=
  match nodeAt doc p with
  | Some n => getNodeText n
  | None => ""
  end.

(** [s.Text()]: the text of every node of the selection, one after
    the other. *)
Fixpoint Text (s : Selection) : string :=
  match s with
  | [] => ""
  | p :: s' => textAt p +:+ Text s'
  end.

(** [getAttributeValue(name, n)]: the first attribute with that key. *)
Fixpoint getAttributeValue (name : string) (attrs : list Attribute) : option string :=
  match attrs with
  | [] => None
  | a :: attrs' =>
      if String.eqb (Key a) name then Some (Val a)
      else getAttributeValue name attrs'
  end.

(** [s.Attr(name)]: of the first node of the selection. *)
Definition Attr (s : Selection) (name : string) : option string :=
  match s with
  | [] => None
  | p :: _ =>
      match nodeAt doc p with
      | Some n => getAttributeValue name (html.Attr n)
      | None => None
      end
  end.

(** [rxClassTrim]: TAB, CR and LF become spaces. *)
Fixpoint classTrim (s : string) : string :=
  match s with
  | EmptyString => EmptyString
  | String c s' =>
      let n := Ascii.nat_of_ascii c in
      String (if ((n =? 9) || (n =? 13) || (n =? 10))%nat then " "%char else c)
             (classTrim s')
  end.

(** [s.HasClass(class)]: some node of the selection is an element
    whose class attribute has the word. *)
Definition HasClass (s : Selection) (class : string) : bool :=
  existsb (fun p =>
    match nodeAt doc p with
    | Some n =>
        if decide (Type_ n = ElementNode) then
          match getAttributeValue "class" (html.Attr n) with
          | Some v => GoStrings.Contains (classTrim (" " +:+ v +:+ " "))
                                         (" " +:+ class +:+ " ")
          | None => false
          end
        else false
    | None => false
    end) s.

Definition Length (s : Selection) : nat := length s.

(** [s.Eq(index)] for an index that is not negative. *)
Definition Eq (s : Selection) (index : nat) : Selection :=
  match s !! index with
  | Some p => [p]
  | None => []
  end.

End selection.

(** [s.Each(f)]: [f(i, node_i)] for each node in turn; [f] updates the
    variables it captured, here the state [St]. *)
Fixpoint EachFrom {St : Type} (i : nat) (s : Selection)
         (f : nat -> Selection -> St -> St) (st : St) : St :=
  match s with
  | [] => st
  | p :: s' => EachFrom (S i) s' f (f i [p] st)
  end.

Definition Each {St : Type} (s : Selection)
           (f : nat -> Selection -> St -> St) (st : St) : St :=
  EachFrom 0 s f st.

End goquery.

Import goquery.

(* ===================================================================== *)
(** * package extractor *)
(* ===================================================================== *)

(** Quad represents a structured data point extracted from Wikipedia. *)
Record Quad : Set := mkQuad {
  Subject : string;
  Relationship : string;
  Value : string;
  Citation : string
}.

(** The selector strings of the source, compiled. *)

(** ["body"] *)
Definition sel_body : Sel := tagSelector "body".
(** ["h1#firstHeading"] *)
Definition sel_firstHeading : Sel :=
  compoundSelector (tagSelector "h1") (idSelector "firstHeading").
(** ["title"] *)
Definition sel_title : Sel := tagSelector "title".
(** [".infobox"] *)
Definition sel_infobox : Sel := classSelector "infobox".
(** ["table.wikitable"] *)
Definition sel_wikitable : Sel :=
  compoundSelector (tagSelector "table") (classSelector "wikitable").
(** ["tr"], ["th"], ["td"], ["li"] *)
Definition sel_tr : Sel := tagSelector "tr".
Definition sel_th : Sel := tagSelector "th".
Definition sel_td : Sel := tagSelector "td".
Definition sel_li : Sel := tagSelector "li".
(** ["td, th"] *)
Definition sel_td_th : Sel := groupSelector (tagSelector "td") (tagSelector "th").
(** ["a[href*='#cite_note']"] *)
Definition sel_a_cite_note : Sel :=
  compoundSelector (tagSelector "a") (attrSubstrSelector "href" "#cite_note").
(** ["sup a"] *)
Definition sel_sup_a : Sel := descendantSelector (tagSelector "sup") (tagSelector "a").
(** ["#References, #references, .reflist, .references"] *)
Definition sel_reference_sections : Sel :=
  groupSelector (idSelector "References")
    (groupSelector (idSelector "references")
       (groupSelector (classSelector "reflist") (classSelector "references"))).
(** ["a[href^='http']"] *)
Definition sel_a_http : Sel :=
  compoundSelector (tagSelector "a") (attrPrefixSelector "href" "http").
(** ["ol.references li"] *)
Definition sel_ol_references_li : Sel :=
  descendantSelector
    (compoundSelector (tagSelector "ol") (classSelector "references"))
    (tagSelector "li").

Section extractor.

(** The parsed page all selections below belong to. *)
Variable doc : Node.

(** ** extractReferences *)

(** The innermost closure: [references[id] = href] for one link. *)
Definition recordLink (id : string) (a : Selection)
           (references : gmap string string) : gmap string string :=
  match Attr doc a "href" with
  | Some href => <[id := href]> references
  | None => references
  end.

(** The closure run on one list item: every external link of an item
    that has an [id] is recorded under that [id]. *)
Definition recordItem (li : Selection)
           (references : gmap string string) : gmap string string :=
  match Attr doc li "id" with
  | Some id =>
      Each (Find doc sel_a_http li) (fun k a => recordLink id a) references
  | None => references
  end.

(** extractReferences extracts all references from the references
    section. *)
Definition extractReferences (d : Selection) : gmap string string :=
  let references : gmap string string := ∅ in
  (* Find the references section - Wikipedia uses various selectors *)
  let references :=
    Each (Find doc sel_reference_sections d) (fun i s references =>
      Each (Find doc sel_li s) (fun j li => recordItem li) references)
      references in
  (* Also look for cite_note references *)
  let references :=
    Each (Find doc sel_ol_references_li d) (fun i li => recordItem li)
      references in
  references.

(** ** extractCitations *)

(** The variables the two closures of [extractCitations] share:
    [citations] and [citationMap]. *)
Record citeVars : Type := mkCiteVars {
  citations : list string;
  citationMap : gmap string bool
}.

(** What the code does with the [href] of one link (the body of both
    closures, which are the same text). *)
Definition citeHref (references : gmap string string) (href : string)
           (v : citeVars) : citeVars :=
  if GoStrings.Contains href "#cite_note-" then
    let citationID := GoStrings.TrimPrefix href "#cite_note-" in
    let referenceKey := "cite_note-" +:+ citationID in
    match references !! referenceKey with
    | Some actualCitation =>
        if negb (default false (citationMap v !! actualCitation)) then
          mkCiteVars (citations v ++ [actualCitation])
                     (<[actualCitation := true]> (citationMap v))
        else v
    | None => v
    end
  else v.

Definition citeLink (references : gmap string string) (s : Selection)
           (v : citeVars) : citeVars :=
  match Attr doc s "href" with
  | Some href => citeHref references href v
  | None => v
  end.

(** The end of [extractCitations]: the sentinel or the joined list. *)
Definition citationString (cs : list string) : string :=
  if decide (length cs = 0) then "no citation" else GoStrings.Join cs "; ".

(** extractCitations extracts citation links by following named anchors
    to the references section. *)
Definition extractCitations (cell : Selection)
           (references : gmap string string) : string :=
  let v := mkCiteVars [] ∅ in
  (* Find all citation links in the cell *)
  let v := Each (Find doc sel_a_cite_note cell)
                (fun i s => citeLink references s) v in
  (* Also look for superscript citation links *)
  let v := Each (Find doc sel_sup_a cell)
                (fun i s => citeLink references s) v in
  citationString (citations v).

(** [extractCitations] without its second loop. *)
Definition extractCitations_anchors_only (cell : Selection)
           (references : gmap string string) : string :=
  let v := mkCiteVars [] ∅ in
  let v := Each (Find doc sel_a_cite_note cell)
                (fun i s => citeLink references s) v in
  citationString (citations v).

(** ** parseInfobox *)

Definition nonEmpty (s : string) : bool := negb (String.eqb s "").

(** The closure run on one row of an info panel. *)
Definition infoboxRow (subject : string) (references : gmap string string)
           (s : Selection) (quads : list Quad) : list Quad :=
  (* Skip header rows *)
  if HasClass doc s "infobox-header" || HasClass doc s "infobox-subheader"
  then quads
  else
    (* Extract label and value *)
    let label := GoStrings.TrimSpace (Text doc (Find doc sel_th s)) in
    let valueCell := Find doc sel_td s in
    let value := GoStrings.TrimSpace (Text doc valueCell) in
    if nonEmpty label && nonEmpty value then
      let citations := extractCitations valueCell references in
      quads ++ [mkQuad subject label value citations]
    else quads.

(** parseInfobox extracts quads from a Wikipedia infobox. *)
Definition parseInfobox (infobox : Selection) (subject : string)
           (references : gmap string string) : list Quad :=
  Each (Find doc sel_tr infobox)
       (fun i s => infoboxRow subject references s) [].

(** ** parseTable *)

(** The closure run on one row of a table. *)
Definition tableRow (subject : string) (references : gmap string string)
           (s : Selection) (quads : list Quad) : list Quad :=
  let cells := Find doc sel_td_th s in
  if 2 <=? Length cells then
    let label := GoStrings.TrimSpace (Text doc (Eq cells 0)) in
    let valueCell := Eq cells 1 in
    let value := GoStrings.TrimSpace (Text doc valueCell) in
    if nonEmpty label && nonEmpty value then
      let citations := extractCitations valueCell references in
      quads ++ [mkQuad subject label value citations]
    else quads
  else quads.

(** parseTable extracts quads from a Wikipedia table. *)
Definition parseTable (table : Selection) (subject : string)
           (references : gmap string string) : list Quad :=
  Each (Find doc sel_tr table)
       (fun i s => tableRow subject references s) [].

(** ** The callback of ExtractFromURL *)

(** The page subject: [title] in the source. *)
Definition pageTitle (d : Selection) : string :=
  (* Extract page title *)
  let title := Text doc (Find doc sel_firstHeading d) in
  if String.eqb title "" then Text doc (Find doc sel_title d) else title.

(** The function given to [OnHTML("body", ...)], run on one matched
    element [h]; [quads] is the variable of [ExtractFromURL] it appends
    to.  ([references] is assigned before it is read, every time.) *)
Definition onBody (h : Selection) (quads : list Quad) : list Quad :=
  let d := h in
  let title := pageTitle d in
  (* First, extract all references from the references section *)
  let references := extractReferences h in
  (* Find and parse infoboxes *)
  let quads :=
    Each (Find doc sel_infobox d) (fun i s quads =>
      let infoboxQuads := parseInfobox s title references in
      quads ++ infoboxQuads) quads in
  (* Find and parse other structured data tables *)
  let quads :=
    Each (Find doc sel_wikitable d) (fun i s quads =>
      let tableQuads := parseTable s title references in
      quads ++ tableQuads) quads in
  quads.

(** colly's [handleOnHTML] for one registered callback: the callback is
    run on every element of the document the selector matches, in
    order.  The root of the tree is the document node. *)
Definition runCallback (quads : list Quad) : list Quad :=
  Each (Find doc sel_body [[]]) (fun i h => onBody h) quads.

(** What one run of the callback over a page yields from an empty
    [quads]: the [extract] of the specification. *)
Definition extract : list Quad := runCallback [].

End extractor.

(* ===================================================================== *)
(** * The collector behind an Extractor, and ExtractFromURL *)
(* ===================================================================== *)

(** What visiting a URL gives: a failure of the request, or a parsed
    HTML page. *)
Inductive Response : Set :=
| Failed (reason : string)
| Page (document : Node).

(** The [error] values in play: colly's [ErrAlreadyVisited], a failed
    request, and [fmt.Errorf(format, err)] with its [%w]. *)
Inductive error : Set :=
| ErrAlreadyVisited
| ErrRequest (reason : string)
| Errorf (format : string) (err : error).

(** An Extractor is its colly collector.  Of the collector the code
    touches: the URLs already visited ([NewCollector] leaves
    [AllowURLRevisit] false, so they are remembered, in the form the
    collector's URL parser gives them, and refused), and the
    callbacks registered by [OnHTML], never removed.  Each callback is the
    closure of one activation of [ExtractFromURL]; [frames] holds the
    [quads] variable of each activation, and a callback is named by the
    index of its activation. *)
Record Extractor : Type := mkExtractor {
  visited : gset string;
  htmlCallbacks : list nat;
  frames : list (list Quad)
}.

(** NewExtractor creates a new Wikipedia extractor. *)
Definition NewExtractor : Extractor := mkExtractor ∅ [] [].

Section collector.

(** The collector's URL parser: the string of the parsed URL, under which
    a visit is remembered ([scrape] parses the URL it is given and checks
    and stores the parsed URL's string: two spellings of one URL, as
    [HTTP://host/p] and [http://host/p], are one visit). *)
Variable normalize : string -> string.

(** The network: what each URL serves. *)
Variable fetch : string -> Response.

(** [handleOnHTML]: every registered callback, in registration order,
    each appending to the [quads] of its own activation. *)
Definition handleOnHTML (d : Node) (callbacks : list nat)
           (fr : list (list Quad)) : list (list Quad) :=
  foldl (fun fr k => alter (runCallback d) k fr) fr callbacks.

(** [c.Visit(url)]. *)
Definition Visit (e : Extractor) (url : string) : Extractor * option error :=
  let u := normalize url in
  if decide (u ∈ visited e) then (e, Some ErrAlreadyVisited)
  else
    let e := mkExtractor ({[u]} ∪ visited e) (htmlCallbacks e) (frames e) in
    match fetch url with
    | Failed reason => (e, Some (ErrRequest reason))
    | Page d =>
        (mkExtractor (visited e) (htmlCallbacks e)
                     (handleOnHTML d (htmlCallbacks e) (frames e)), None)
    end.

(** ExtractFromURL extracts structured data from a Wikipedia URL:
    the extractor afterwards, and the quads or the error. *)
Definition ExtractFromURL (e : Extractor) (url : string)
  : Extractor * (list Quad + error) :=
  (* var quads []Quad *)
  let k := length (frames e) in
  (* e.colly.OnHTML("body", func ...) *)
  let e := mkExtractor (visited e) (htmlCallbacks e ++ [k]) (frames e ++ [[]]) in
  let (e, err) := Visit e url in
  match err with
  | Some err => (e, inr (Errorf "failed to visit URL: %w" err))
  | None => (e, inl (default [] (frames e !! k)))
  end.

End collector.

(* ===================================================================== *)
(** * The notions the properties are stated with *)
(* ===================================================================== *)

(** The value of [href] of each link of a selection that has one, in the
    order of the selection. *)
Definition hrefs (doc : Node) (links : Selection) : list string :=
  omap (fun a => Attr doc [a] "href") links.

(** The reference target a citation marker with this [href] stands for:
    the entry of the index under ["cite_note-" + TrimPrefix(href)], for a
    [href] that contains ["#cite_note-"]. *)
Definition resolveHref (references : gmap string string) (href : string)
  : option string :=
  if GoStrings.Contains href "#cite_note-" then
    references !! ("cite_note-" +:+ GoStrings.TrimPrefix href "#cite_note-")
  else None.

(** The citation markers of a cell, as the two scans meet them: the
    citation-note anchors, then the links inside superscripts. *)
Definition markers (doc : Node) (cell : Selection) : list string :=
  hrefs doc (Find doc sel_a_cite_note cell) ++ hrefs doc (Find doc sel_sup_a cell).

(** The targets the markers of a cell resolve to, in the order met. *)
Definition resolvedTargets (doc : Node) (cell : Selection)
           (references : gmap string string) : list string :=
  omap (resolveHref references) (markers doc cell).

(** The distinct elements of a list, each at its first occurrence. *)
Fixpoint firstOccurrences (l : list string) : list string :=
  match l with
  | [] => []
  | x :: l' => x :: filter (fun y => y <> x) (firstOccurrences l')
  end.

(** Induction on a tree: a property of a node follows from the property
    of its children. *)
Fixpoint Node_induction (P : Node -> Prop)
         (step : forall t d a cs, Forall P cs -> P (mkNode t d a cs))
         (n : Node) : P n :=
  match n with
  | mkNode t d a cs =>
      step t d a cs
        ((fix all (cs : list Node) : Forall P cs :=
            match cs with
            | [] => @List.Forall_nil _ P
            | c :: cs' => @List.Forall_cons _ P c cs' (Node_induction P step c) (all cs')
            end) cs)
  end.

(** The positions listed for the children from index [i] on. *)
Fixpoint descendantsFrom (i : nat) (cs : list Node) : list path :=
  match cs with
  | [] => []
  | c :: cs' => ([i] :: map (cons i) (descendants c)) ++ descendantsFrom (S i) cs'
  end.

(** The dedup set and the list agree: a target is marked in
    [citationMap] exactly when it is in [citations]. *)
Definition citeVars_ok (v : citeVars) : Prop :=
  forall t, default false (citationMap v !! t) = true <-> t ∈ citations v.

(** No key of the index has a ['#'] in it. *)
Definition keys_without_hash (references : gmap string string) : Prop :=
  forall k, is_Some (references !! k) -> GoStrings.Contains k "#" = false.

(** The external links of a list item: the [href] of each
    [a[href^='http']] below it, in document order. *)
Definition itemLinks (doc : Node) (li : path) : list string :=
  hrefs doc (Find doc sel_a_http [li]).

(** The list items the two scans of [extractReferences] go through, in
    the order they do: the items of each reference section, then the
    items of the ordered reference lists. *)
Definition scannedItems (doc : Node) (d : Selection) : list path :=
  flat_map (fun s => Find doc sel_li [s]) (Find doc sel_reference_sections d)
  ++ Find doc sel_ol_references_li d.

(** The assignments [references[id] = href] one item gives rise to. *)
Definition itemWrites (doc : Node) (li : path) : list (string * string) :=
  match Attr doc [li] "id" with
  | Some id => map (pair id) (itemLinks doc li)
  | None => []
  end.

Definition assign (references : gmap string string) (w : string * string)
  : gmap string string :=
  <[w.1 := w.2]> references.

(** The label and the value of a row, as each Row Parser variant reads
    them, and the rows the info-panel variant skips. *)
Definition isHeaderRow (doc : Node) (s : Selection) : bool :=
  HasClass doc s "infobox-header" || HasClass doc s "infobox-subheader".

Definition infoboxLabel (doc : Node) (s : Selection) : string :=
  GoStrings.TrimSpace (Text doc (Find doc sel_th s)).

Definition infoboxValue (doc : Node) (s : Selection) : string :=
  GoStrings.TrimSpace (Text doc (Find doc sel_td s)).

Definition tableLabel (doc : Node) (s : Selection) : string :=
  GoStrings.TrimSpace (Text doc (Eq (Find doc sel_td_th s) 0)).

Definition tableValue (doc : Node) (s : Selection) : string :=
  GoStrings.TrimSpace (Text doc (Eq (Find doc sel_td_th s) 1)).

(** A row adds an assertion to the accumulator. *)
Definition emits (row : list Quad -> list Quad) (quads : list Quad) : Prop :=
  exists q, row quads = quads ++ [q].

(** The elements the callback of [ExtractFromURL] is run on.  The HTML
    parser gives a document at most one [body]. *)
Definition bodies (doc : Node) : Selection := Find doc sel_body [[]].

(** The callbacks of an extractor append to activations that exist. *)
Definition callbacks_in_frames (e : Extractor) : Prop :=
  forall k, k ∈ htmlCallbacks e -> k < length (frames e).

(** The error of [ExtractFromURL] on a URL its collector has visited. *)
Definition already_visited : list Quad + error :=
  inr (Errorf "failed to visit URL: %w" ErrAlreadyVisited).

(* ===================================================================== *)
(** * Sample pages *)
(* ===================================================================== *)

Module Samples.

(** A reference list with one note that links two external pages. *)
Definition references_list : Node :=
  elem "ol" [("class", "references")]
    [ elem "li" [("id", "cite_note-1")]
        [ elem "a" [("href", "#cite_ref-1")] [text "^"];
          elem "a" [("href", "https://example.com/bio")] [text "Bio"];
          elem "a" [("href", "https://archive.org/bio")] [text "Archived"] ] ].

(** A value cell whose footnote marker is a link inside a superscript,
    followed by a link to a note of another page. *)
Definition value_cell : Node :=
  elem "td" []
    [ text " Robert X";
      elem "sup" [("class", "reference")]
        [ elem "a" [("href", "#cite_note-1")] [text "[1]"] ];
      elem "a" [("href", "/wiki/Other#cite_note-1")] [text "see"] ].

Definition info_panel : Node :=
  elem "table" [("class", "infobox vevent")]
    [ elem "tbody" []
        [ elem "tr" [("class", "infobox-header")]
            [ elem "th" [] [text "Overview"] ];
          elem "tr" [] [ elem "th" [] [text "Designed by"]; value_cell ];
          elem "tr" [] [ elem "th" [] [text "Paradigm"]; elem "td" [] [text "  "] ] ] ].

Definition data_table : Node :=
  elem "table" [("class", "wikitable")]
    [ elem "tbody" []
        [ elem "tr" [] [ elem "th" [] [text "A"]; elem "td" [] [text "B"];
                         elem "td" [] [text "C"] ];
          elem "tr" [] [ elem "td" [] [text "alone"] ] ] ].

(** A page with a heading, an info panel, a table and its references. *)
Definition page : Node :=
  document
    [ elem "html" []
        [ elem "head" [] [ elem "title" [] [text "Example Language - Wikipedia"] ];
          elem "body" []
            [ elem "h1" [("id", "firstHeading")] [text "Example Language"];
              info_panel; data_table; references_list ] ] ].

(** A page with a title, no heading, and one info panel row. *)
Definition page_without_heading : Node :=
  document
    [ elem "html" []
        [ elem "head" [] [ elem "title" [] [text "Example Language - Wikipedia"] ];
          elem "body" []
            [ elem "table" [("class", "infobox")]
                [ elem "tbody" []
                    [ elem "tr" [] [ elem "th" [] [text "Designed by"];
                                     elem "td" [] [text "Robert X"] ] ] ] ] ] ].

(** A page with no table at all. *)
Definition plain_page : Node :=
  document
    [ elem "html" []
        [ elem "head" [] [ elem "title" [] [text "Plain"] ];
          elem "body" [] [ elem "p" [] [text "Nothing to extract."] ] ] ].

(** Positions in [page]. *)
Definition body_of_page : path := [0; 1].
Definition panel_of_page : path := [0; 1; 1].
Definition table_of_page : path := [0; 1; 2].
Definition cell_of_page : path := [0; 1; 1; 0; 1; 1].
Definition note_of_page : path := [0; 1; 3; 0].
(** The rows ["Designed by"] and ["Paradigm"] of the panel, and the
    rows [A, B, C] and [alone] of the table. *)
Definition designed_by_row : path := [0; 1; 1; 0; 1].
Definition paradigm_row : path := [0; 1; 1; 0; 2].
Definition abc_row : path := [0; 1; 2; 0; 0].
Definition alone_row : path := [0; 1; 2; 0; 1].

Definition index : gmap string string :=
  {[ "cite_note-1" := "https://example.com/bio" ]}.

(** A table whose cells have white space around their text, among it a
    line feed and a no-break space (C2 A0); the second cell of its second
    row holds white space only.  The third cell of the first row is left
    open. *)
Definition padded_table (third : string) : Node :=
  elem "table" [("class", "wikitable")]
    [ elem "tbody" []
        [ elem "tr" []
            [ elem "th" [] [text (" Name" +:+ String (GoStrings.byte 10) "")];
              elem "td" []
                [text (String (GoStrings.byte 194) (String (GoStrings.byte 160)
                                                           "Ada  "))];
              elem "td" [] [text third] ];
          elem "tr" []
            [ elem "th" [] [text "Born"];
              elem "td" []
                [text (" " +:+ String (GoStrings.byte 194)
                                 (String (GoStrings.byte 160)
                                         (String (GoStrings.byte 10) "")))];
              elem "td" [] [text "1815"] ] ] ].

Definition padded_page (third : string) : Node :=
  document
    [ elem "html" []
        [ elem "head" [] [ elem "title" [] [text "Ada - Wikipedia"] ];
          elem "body" []
            [ elem "h1" [("id", "firstHeading")] [text "Ada"];
              padded_table third ] ] ].

(** The rows [Name] and [Born] of [padded_page]. *)
Definition name_row : path := [0; 1; 1; 0; 0].
Definition born_row : path := [0; 1; 1; 0; 1].

(** A table whose only row has one cell, which holds a table of its
    own. *)
Definition nested_page : Node :=
  document
    [ elem "html" []
        [ elem "head" [] [];
          elem "body" []
            [ elem "table" [("class", "wikitable")]
                [ elem "tbody" []
                    [ elem "tr" []
                        [ elem "td" []
                            [ text "Outer";
                              elem "table" []
                                [ elem "tbody" []
                                    [ elem "tr" []
                                        [ elem "td" [] [text "in1"];
                                          elem "td" [] [text "in2"] ] ] ] ] ] ] ] ] ] ].

(** The row of the outer table of [nested_page]. *)
Definition outer_row : path := [0; 1; 0; 0; 0].

(** A page where a table comes first, then an info panel, a second table
    and a second info panel. *)
Definition mixed_page : Node :=
  document
    [ elem "html" []
        [ elem "head" [] [];
          elem "body" []
            [ elem "h1" [("id", "firstHeading")] [text "Mixed"];
              elem "table" [("class", "wikitable")]
                [ elem "tbody" []
                    [ elem "tr" [] [ elem "th" [] [text "T1"];
                                     elem "td" [] [text "first table"] ] ] ];
              elem "table" [("class", "infobox")]
                [ elem "tbody" []
                    [ elem "tr" [] [ elem "th" [] [text "P1"];
                                     elem "td" [] [text "first panel"] ] ] ];
              elem "table" [("class", "wikitable sortable")]
                [ elem "tbody" []
                    [ elem "tr" [] [ elem "th" [] [text "T2"];
                                     elem "td" [] [text "second table"] ];
                      elem "tr" [] [ elem "th" [] [text "T3"];
                                     elem "td" [] [text "its second row"] ] ] ];
              elem "div" [("class", "infobox")]
                [ elem "table" []
                    [ elem "tbody" []
                        [ elem "tr" [] [ elem "th" [] [text "P2"];
                                         elem "td" [] [text "second panel"] ] ] ] ] ] ] ].

Definition url : string := "https://en.wikipedia.org/wiki/Example_Language".
Definition mirror : string := "https://en.m.wikipedia.org/wiki/Example_Language".

Definition plain_url : string := "https://en.wikipedia.org/wiki/Plain".

(** The first address with its scheme and host in capitals. *)
Definition shouted : string := "HTTPS://EN.WIKIPEDIA.ORG/wiki/Example_Language".

(** A URL parser for the samples: the scheme and the host in lower case,
    the rest as written. *)
Definition lowerByte (c : ascii) : ascii :=
  let n := nat_of_ascii c in
  if (65 <=? n) && (n <=? 90) then ascii_of_nat (n + 32) else c.

Fixpoint canonicalFrom (slashes : nat) (s : string) : string :=
  match s with
  | "" => ""
  | String c s' =>
      if 3 <=? slashes then s
      else String (lowerByte c)
                  (canonicalFrom (if Ascii.eqb c "/" then S slashes else slashes) s')
  end.

Definition canonical (s : string) : string := canonicalFrom 0 s.

(** A network that serves [page] at two addresses and [plain_page] at
    a third. *)
Definition web (u : string) : Response :=
  if String.eqb u url then Page page
  else if String.eqb u mirror then Page page
  else if String.eqb u plain_url then Page plain_page
  else Failed "not found".

End Samples.

(* ===================================================================== *)
(** * Further notions: trimmed strings, well-formed attributes, histories *)
(* ===================================================================== *)

(** The string begins with a white-space rune. *)
Definition leadSpace (s : string) : bool :=
  match s with
  | EmptyString => false
  | String a r1 =>
      GoStrings.asciiSpace a ||
      match r1 with
      | EmptyString => false
      | String b r2 =>
          GoStrings.space2 a b ||
          match r2 with
          | EmptyString => false
          | String c _ => GoStrings.space3 a b c
          end
      end
  end.

(** The reversed string begins with the bytes of a white-space rune, last
    byte first: the string ends with a white-space rune. *)
Definition leadSpaceRev (s : string) : bool :=
  match s with
  | EmptyString => false
  | String a r1 =>
      GoStrings.asciiSpace a ||
      match r1 with
      | EmptyString => false
      | String b r2 =>
          GoStrings.space2 b a ||
          match r2 with
          | EmptyString => false
          | String c _ => GoStrings.space3 c b a
          end
      end
  end.

(** A string [TrimSpace] has nothing to remove from. *)
Definition trimmed (s : string) : Prop := GoStrings.TrimSpace s = s.

(** A string of white-space runes and nothing else, read rune by rune
    from the front. *)
Fixpoint blank (s : string) : bool :=
  match s with
  | EmptyString => true
  | String a r1 =>
      if GoStrings.asciiSpace a then blank r1
      else match r1 with
           | EmptyString => false
           | String b r2 =>
               if GoStrings.space2 a b then blank r2
               else match r2 with
                    | EmptyString => false
                    | String c r3 => GoStrings.space3 a b c && blank r3
                    end
           end
  end.

(** The same for a reversed string, whose runes come last byte first. *)
Fixpoint blankRev (s : string) : bool :=
  match s with
  | EmptyString => true
  | String a r1 =>
      if GoStrings.asciiSpace a then blankRev r1
      else match r1 with
           | EmptyString => false
           | String b r2 =>
               if GoStrings.space2 b a then blankRev r2
               else match r2 with
                    | EmptyString => false
                    | String c r3 => GoStrings.space3 c b a && blankRev r3
                    end
           end
  end.

(** [t] is [raw] with the white space at its two ends taken off: what
    comes before [t] in [raw] and what comes after is white space only,
    and [t] neither begins nor ends with a white-space rune. *)
Definition trimOf (raw t : string) : Prop :=
  exists pre post,
    raw = pre +:+ t +:+ post /\
    blank pre = true /\ blankRev (String.rev post) = true /\
    leadSpace t = false /\ leadSpaceRev (String.rev t) = false.

(** The node at [q] lies strictly below the node at [p]. *)
Definition below (p q : path) : Prop := exists r, r <> [] /\ q = p ++ r.

(** An element one of whose [class] attributes has the word [class]. *)
Definition hasClass (n : Node) (class : string) : Prop :=
  Type_ n = ElementNode /\
  exists a, a ∈ html.Attr n /\ Key a = "class" /\ class ∈ cascadia.fields (Val a).

(** A [td] or [th] element. *)
Definition isCell (n : Node) : bool :=
  bool_decide (Type_ n = ElementNode) &&
  (String.eqb (Data n) "td" || String.eqb (Data n) "th").

(** The cells of a row in the sense of the table: the [td] and [th]
    elements that are children of the row. *)
Definition ownCells (doc : Node) (row : path) : list path :=
  match nodeAt doc row with
  | Some n =>
      omap (fun ic : nat * Node =>
              if isCell ic.2 then Some (row ++ [ic.1]) else None)
           (imap pair (children n))
  | None => []
  end.

(** The attribute keys of every node are distinct, checked node by node. *)
Fixpoint distinctKeys (n : Node) : bool :=
  match n with
  | mkNode _ _ attrs cs =>
      bool_decide (NoDup (map Key attrs)) &&
      (fix all (cs : list Node) : bool :=
         match cs with
         | [] => true
         | c :: cs' => distinctKeys c && all cs'
         end) cs
  end.

(** The same, by positions. *)
Definition attrs_distinct (doc : Node) : Prop :=
  forall q n, nodeAt doc q = Some n -> NoDup (map Key (html.Attr n)).




(** The assertion a row of an info panel stands for, and the one a row
    of a table stands for, on a page with this subject and index. *)
Definition infoboxQuad (doc : Node) (subject : string)
           (references : gmap string string) (row : path) : Quad :=
  mkQuad subject (infoboxLabel doc [row]) (infoboxValue doc [row])
         (extractCitations doc (Find doc sel_td [row]) references).

Definition tableQuad (doc : Node) (subject : string)
           (references : gmap string string) (row : path) : Quad :=
  mkQuad subject (tableLabel doc [row]) (tableValue doc [row])
         (extractCitations doc (Eq (Find doc sel_td_th [row]) 1) references).

(** [q] is the assertion of a row of an info panel of the body [b] that
    is no header row and has a label and a value. *)
Definition fromInfobox (doc : Node) (b : path) (q : Quad) : Prop :=
  exists region row,
    region ∈ Find doc sel_infobox [b] /\ row ∈ Find doc sel_tr [region] /\
    isHeaderRow doc [row] = false /\
    infoboxLabel doc [row] <> "" /\ infoboxValue doc [row] <> "" /\
    q = infoboxQuad doc (pageTitle doc [b]) (extractReferences doc [b]) row.

(** [q] is the assertion of a row of a table of the body [b] that has a
    label and a value. *)
Definition fromTable (doc : Node) (b : path) (q : Quad) : Prop :=
  exists region row,
    region ∈ Find doc sel_wikitable [b] /\ row ∈ Find doc sel_tr [region] /\
    tableLabel doc [row] <> "" /\ tableValue doc [row] <> "" /\
    q = tableQuad doc (pageTitle doc [b]) (extractReferences doc [b]) row.


(* ===================================================================== *)
(** * package storage *)
(* ===================================================================== *)

(** Source: [internal/storage/storage.go].  The table [quads] is kept as
    the list of its rows in insertion order, with the columns the code
    writes or reads.  What belongs to the SQL engine and not to the code
    (the [LIKE] operator, the order of rows with equal [extracted_at],
    the text of a stored time) is an [Engine]. *)

Module storage.

(** The [error] values in play: [sql.ErrConnDone]-like use of a closed
    handle, [Scan] of a NULL into a [string], a failure of the engine on
    the file, and [fmt.Errorf(format, err)] with its [%w]. *)
Inductive error : Set :=
| ErrDBClosed
| ErrScanNULL (column : string)
| ErrEngine (reason : string)
| Errorf (format : string) (err : error).

(** Stats represents storage statistics. *)
Record Stats : Set := mkStats {
  TotalQuads : nat;
  TotalSubjects : nat;
  TotalSources : nat;
  LastExtraction : string
}.

Section sqlite.

(** The values of [time.Time]. *)
Context {Time : Type}.

(** A row of [quads]: [subject], [relationship], [value] and
    [source_url] are [TEXT NOT NULL], [citation] is [TEXT] and may be
    NULL, [extracted_at] is [DATETIME NOT NULL].  ([id] and [created_at]
    are filled by the engine and read by no statement.) *)
Record Row : Type := mkRow {
  subject : string;
  relationship : string;
  value : string;
  citation : option string;
  source_url : string;
  extracted_at : Time
}.

(** The SQL engine: [like pattern text] is [text LIKE pattern];
    [newer t1 t2] is [extracted_at] [t1 >= t2] as the engine compares
    stored times; [order_desc] is [ORDER BY extracted_at DESC], which
    permutes the rows into descending order and is free on ties;
    [max_text] is [MAX(extracted_at)] as [Scan] writes it into a
    [string], NULL when there is no row. *)
Class Engine : Type := mkEngine {
  like : string -> string -> bool;
  newer : Time -> Time -> Prop;
  order_desc : list Row -> list Row;
  max_text : list Row -> option string;
  order_desc_perm : forall rows, order_desc rows ≡ₚ rows;
  order_desc_sorted : forall rows,
    StronglySorted (fun r1 r2 => newer (extracted_at r1) (extracted_at r2))
                   (order_desc rows);
  max_text_none : forall rows, max_text rows = None <-> rows = []
}.

Context {engine : Engine}.

(** SQLiteStorage implements Storage interface using SQLite: the handle
    [db], open or closed, and the rows of the table behind it. *)
Record SQLiteStorage : Type := mkStorage {
  closed : bool;
  table : list Row
}.

(** The database file [NewSQLiteStorage] is given the path of. *)
Inductive DBFile : Type :=
| NoFile
| Database (rows : list Row)
| Unusable (reason : string).

(** NewSQLiteStorage creates a new SQLite storage instance:
    [CREATE TABLE IF NOT EXISTS] keeps the rows of a table that exists. *)
Definition NewSQLiteStorage (file : DBFile) : SQLiteStorage + error :=
  match file with
  | NoFile => inl (mkStorage false [])
  | Database rows => inl (mkStorage false rows)
  | Unusable reason =>
      inr (Errorf "failed to create tables: %w" (ErrEngine reason))
  end.

(** The [INSERT] of [Store] for one quad. *)
Definition insertQuad (sourceURL : string) (extractedAt : Time)
           (tx : list Row) (quad : Quad) : list Row :=
  tx ++ [mkRow (Subject quad) (Relationship quad) (Value quad)
               (Some (Citation quad)) sourceURL extractedAt].

(** Store stores a collection of quads with metadata: one transaction,
    one [INSERT] per quad, then the commit. *)
Definition Store (s : SQLiteStorage) (quads : list Quad) (sourceURL : string)
           (extractedAt : Time) : SQLiteStorage * option error :=
  if closed s then
    (s, Some (Errorf "failed to begin transaction: %w" ErrDBClosed))
  else
    let tx := foldl (insertQuad sourceURL extractedAt) (table s) quads in
    (mkStorage false tx, None).

(** [rows.Scan(&quad.Subject, &quad.Relationship, &quad.Value,
    &quad.Citation)]: a NULL cannot be scanned into a [string]. *)
Definition scan (r : Row) : Quad + error :=
  match citation r with
  | Some c => inl (mkQuad (subject r) (relationship r) (value r) c)
  | None => inr (ErrScanNULL "citation")
  end.

(** The loop [for rows.Next()] of the four queries. *)
Fixpoint scanRows (rows : list Row) (quads : list Quad) : list Quad + error :=
  match rows with
  | [] => inl quads
  | r :: rows' =>
      match scan r with
      | inl quad => scanRows rows' (quads ++ [quad])
      | inr err => inr (Errorf "failed to scan quad: %w" err)
      end
  end.

(** [s.db.Query("SELECT subject, relationship, value, citation FROM quads
    WHERE ... ORDER BY extracted_at DESC")] followed by the loop. *)
Definition query (s : SQLiteStorage) (cond : Row -> bool) : list Quad + error :=
  if closed s then inr (Errorf "failed to query quads: %w" ErrDBClosed)
  else scanRows (order_desc (filter (fun r => Is_true (cond r)) (table s))) [].

(** [text LIKE ?] on a column that may be NULL: NULL is not true. *)
Definition likeNullable (pattern : string) (text : option string) : bool :=
  match text with
  | Some t => like pattern t
  | None => false
  end.

(** GetBySubject retrieves all quads for a given subject. *)
Definition GetBySubject (s : SQLiteStorage) (subject0 : string) : list Quad + error :=
  query s (fun r => like ("%" +:+ subject0 +:+ "%") (subject r)).

(** GetByRelationship retrieves all quads with a specific relationship. *)
Definition GetByRelationship (s : SQLiteStorage) (relationship0 : string)
  : list Quad + error :=
  query s (fun r => like ("%" +:+ relationship0 +:+ "%") (relationship r)).

(** GetBySourceURL retrieves all quads from a specific source URL. *)
Definition GetBySourceURL (s : SQLiteStorage) (sourceURL : string)
  : list Quad + error :=
  query s (fun r => String.eqb (source_url r) sourceURL).

(** Search searches quads by text in any field. *)
Definition Search (s : SQLiteStorage) (query0 : string) : list Quad + error :=
  let p := "%" +:+ query0 +:+ "%" in
  query s (fun r => like p (subject r) || like p (relationship r)
                    || like p (value r) || likeNullable p (citation r)).

(** GetStats returns storage statistics. *)
Definition GetStats (s : SQLiteStorage) : Stats + error :=
  if closed s then inr (Errorf "failed to get total quads: %w" ErrDBClosed)
  else
    inl (mkStats
           (* SELECT COUNT( * ) FROM quads *)
           (length (table s))
           (* SELECT COUNT(DISTINCT subject) FROM quads *)
           (length (remove_dups (map subject (table s))))
           (* SELECT COUNT(DISTINCT source_url) FROM quads *)
           (length (remove_dups (map source_url (table s))))
           (* SELECT MAX(extracted_at) FROM quads; on error "Never" *)
           (default "Never" (max_text (table s)))).

(** Close closes the storage connection. *)
Definition Close (s : SQLiteStorage) : SQLiteStorage * option error :=
  (mkStorage true (table s), None).

(** What is on disk behind a handle. *)
Definition file_of (s : SQLiteStorage) : DBFile := Database (table s).

(** No row of the table has a NULL citation. *)
Definition no_null_citation (s : SQLiteStorage) : Prop :=
  Forall (fun r => is_Some (citation r)) (table s).

(** The quad of a row whose citation is not NULL. *)
Definition quad_of (r : Row) : Quad :=
  mkQuad (subject r) (relationship r) (value r) (default "" (citation r)).

(** The storages a program can hold when the database file is written by
    this package alone: opened on no file, or left by [Store] or [Close],
    or opened on the file such a storage leaves. *)
Inductive written : SQLiteStorage -> Prop :=
| written_new : written (mkStorage false [])
| written_Store s quads sourceURL extractedAt :
    written s -> written (Store s quads sourceURL extractedAt).1
| written_Close s : written s -> written (Close s).1
| written_reopen s s' :
    written s -> NewSQLiteStorage (file_of s) = inl s' -> written s'.

End sqlite.

End storage.


(* ===================================================================== *)
(** * package cmd: the query and store commands *)
(* ===================================================================== *)

(** Source: [cmd/query.go] and the [store] command.  A command is run on
    the database file [quads.db] and ends with [log.Fatal] or with what
    it printed on the standard output. *)

Module cmd.

(** What [log.Fatal] and [log.Fatalf] were given. *)
Inductive Failure : Set :=
| NoError
| ExtractorError (err : error)
| StorageError (err : storage.error).

Inductive Outcome : Set :=
| Fatal (format : string) (err : Failure)
| Done (stdout : string).

(** The line feed and the double quote of the format strings. *)
Definition LF : string := String "010"%char "".
Definition DQ : string := String "034"%char "".

(** [%d] of an [int] that is not negative. *)
Definition decimal (n : nat) : string := pretty.pretty n.

Fixpoint concatStrings (l : list string) : string :=
  match l with
  | [] => ""
  | s :: l' => s +:+ concatStrings l'
  end.

(** The flags of the query command, and the global [format]. *)
Record QueryFlags : Set := mkFlags {
  querySubject : string;
  queryRelationship : string;
  querySourceURL : string;
  querySearch : string;
  queryStats : bool;
  format : string
}.

(** The four [Printf] of the statistics. *)
Definition printStats (stats : storage.Stats) : string :=
  "Database Statistics:" +:+ LF +:+
  "  Total Quads: " +:+ decimal (storage.TotalQuads stats) +:+ LF +:+
  "  Total Subjects: " +:+ decimal (storage.TotalSubjects stats) +:+ LF +:+
  "  Total Sources: " +:+ decimal (storage.TotalSources stats) +:+ LF +:+
  "  Last Extraction: " +:+ storage.LastExtraction stats +:+ LF.

(** [fmt.Printf("\"%s\",\"%s\",\"%s\",\"%s\"\n", ...)] for one quad. *)
Definition csvLine (quad : Quad) : string :=
  DQ +:+ Subject quad +:+ DQ +:+ "," +:+
  DQ +:+ Relationship quad +:+ DQ +:+ "," +:+
  DQ +:+ Value quad +:+ DQ +:+ "," +:+
  DQ +:+ Citation quad +:+ DQ +:+ LF.

(** The loop of the csv format, after its header line. *)
Definition csvLines (quads : list Quad) : string :=
  concatStrings (map csvLine quads).

Definition printCSV (quads : list Quad) : string :=
  "Subject,Relationship,Value,Citation" +:+ LF +:+ csvLines quads.

(** The block of the default format for the quad of index [i]. *)
Definition tableBlock (i : nat) (quad : Quad) : string :=
  "Quad " +:+ decimal (i + 1) +:+ ":" +:+ LF +:+
  "  Subject: " +:+ Subject quad +:+ LF +:+
  "  Relationship: " +:+ Relationship quad +:+ LF +:+
  "  Value: " +:+ Value quad +:+ LF +:+
  "  Citation: " +:+ Citation quad +:+ LF +:+
  LF.

Definition printTable (quads : list Quad) : string :=
  concatStrings (imap tableBlock quads).

(** The line of the preview of the store command for the quad of index
    [i], and the loop, which stops at the sixth quad. *)
Definition previewLine (i : nat) (quad : Quad) : string :=
  "Quad " +:+ decimal (i + 1) +:+ ": " +:+ Subject quad +:+ " | " +:+
  Relationship quad +:+ " | " +:+ Value quad +:+ " | " +:+
  Citation quad +:+ LF.

Definition printPreview (quads : list Quad) : string :=
  concatStrings (imap previewLine (take 5 quads)).

(** A field that can be read back from a csv line: no double quote. *)
Definition quoteFree (s : string) : Prop :=
  GoStrings.Contains s DQ = false.

Definition quadQuoteFree (quad : Quad) : Prop :=
  quoteFree (Subject quad) /\ quoteFree (Relationship quad) /\
  quoteFree (Value quad) /\ quoteFree (Citation quad).

Section commands.

Context {Time : Type} {engine : storage.Engine (Time := Time)}.

(** [json.NewEncoder(os.Stdout)] with its indent, on the quads. *)
Variable encodeJSON : list Quad -> string.

(** The [switch] of the query command that picks the query. *)
Definition pickQuery (store : storage.SQLiteStorage) (flags : QueryFlags)
  : option (list Quad + storage.error) :=
  if nonEmpty (querySubject flags)
  then Some (storage.GetBySubject store (querySubject flags))
  else if nonEmpty (queryRelationship flags)
  then Some (storage.GetByRelationship store (queryRelationship flags))
  else if nonEmpty (querySourceURL flags)
  then Some (storage.GetBySourceURL store (querySourceURL flags))
  else if nonEmpty (querySearch flags)
  then Some (storage.Search store (querySearch flags))
  else None.

(** The [switch format] of the query command. *)
Definition printQuads (fmt : string) (quads : list Quad) : string :=
  if String.eqb fmt "json" then encodeJSON quads
  else if String.eqb fmt "csv" then printCSV quads
  else printTable quads.

(** The [Run] of the query command. *)
Definition queryRun (file : storage.DBFile) (flags : QueryFlags) : Outcome :=
  (* Initialize storage *)
  match storage.NewSQLiteStorage file with
  | inr err => Fatal "Failed to initialize storage: %v" (StorageError err)
  | inl store =>
      (* Handle different query types *)
      if queryStats flags then
        match storage.GetStats store with
        | inr err => Fatal "Failed to get stats: %v" (StorageError err)
        | inl stats => Done (printStats stats)
        end
      else
        match pickQuery store flags with
        | None =>
            Done ("Please specify a query type. Use --help for options." +:+ LF)
        | Some (inr err2) => Fatal "Failed to query data: %v" (StorageError err2)
        | Some (inl quads) =>
            (* Output results *)
            if length quads =? 0 then
              Done ("No quads found matching the query." +:+ LF)
            else
              Done ("Found " +:+ decimal (length quads) +:+ " quads:" +:+ LF +:+ LF
                    +:+ printQuads (format flags) quads)
        end
  end.

(** The collector's URL parser and the network ([now], below, is the
    value of [time.Now()]). *)
Variable normalize : string -> string.
Variable fetch : string -> Response.

(** The [Run] of the store command: the outcome and the database file
    afterwards. *)
Definition storeRun (file : storage.DBFile) (now : Time) (url : string)
  : Outcome * storage.DBFile :=
  (* Validate URL *)
  if negb (GoStrings.Contains url "wikipedia.org") then
    (Fatal "URL must be a Wikipedia page" NoError, file)
  else
    (* Initialize storage *)
    match storage.NewSQLiteStorage file with
    | inr err =>
        (Fatal "Failed to initialize storage: %v" (StorageError err), file)
    | inl store =>
        (* Create extractor, extract data *)
        let ext := NewExtractor in
        match (ExtractFromURL normalize fetch ext url).2 with
        | inr err =>
            (Fatal "Failed to extract data: %v" (ExtractorError err),
             storage.file_of store)
        | inl quads =>
            (* Store data *)
            match storage.Store store quads url now with
            | (store, Some err) =>
                (Fatal "Failed to store data: %v" (StorageError err),
                 storage.file_of store)
            | (store, None) =>
                (* Output results *)
                (Done ("Extracted and stored " +:+ decimal (length quads)
                       +:+ " quads from " +:+ url +:+ LF
                       +:+ LF +:+ "Preview of extracted data:" +:+ LF
                       +:+ printPreview quads),
                 storage.file_of store)
            end
        end
    end.

End commands.

End cmd.


(** The row [Store] inserts for a quad. *)
Definition storedRow {Time : Type} (sourceURL : string) (extractedAt : Time)
           (quad : Quad) : storage.Row :=
  storage.mkRow (Subject quad) (Relationship quad) (Value quad)
                (Some (Citation quad)) sourceURL extractedAt.

(** A [LIKE] for the sample engine: [%] is any run of bytes, [_] one
    byte, a letter matches in either case. *)
Definition lower (c : Ascii.ascii) : Ascii.ascii :=
  let n := Ascii.nat_of_ascii c in
  if (65 <=? n) && (n <=? 90) then Ascii.ascii_of_nat (n + 32) else c.

Fixpoint likeMatch (pattern text : string) {struct pattern} : bool :=
  match pattern with
  | EmptyString => match text with EmptyString => true | _ => false end
  | String p pattern' =>
      if Ascii.eqb p "%"%char then
        (fix any (t : string) : bool :=
           likeMatch pattern' t ||
           match t with
           | EmptyString => false
           | String _ t' => any t'
           end) text
      else
        match text with
        | EmptyString => false
        | String c text' =>
            (Ascii.eqb p "_"%char || Ascii.eqb (lower p) (lower c))
            && likeMatch pattern' text'
        end
  end.

(** Times as seconds, for the sample engine. *)
Definition newerRow (r1 r2 : storage.Row (Time := nat)) : Prop :=
  storage.extracted_at r2 <= storage.extracted_at r1.

Definition maxTimeText (rows : list (storage.Row (Time := nat))) : option string :=
  match rows with
  | [] => None
  | r :: rows' =>
      Some (pretty.pretty
              (foldl (fun m r' => Nat.max m (storage.extracted_at r'))
                     (storage.extracted_at r) rows'))
  end.


(** A database file the commands can be run on as this package leaves
    it: no file yet, or a table in which no citation is NULL. *)
Definition ownFile {Time : Type} (file : storage.DBFile (Time := Time)) : Prop :=
  match file with
  | storage.NoFile => True
  | storage.Database rows => Forall (fun r => is_Some (storage.citation r)) rows
  | storage.Unusable _ => False
  end.

(** A sample table: two rows of one page, stored at second 100. *)
Definition sampleTable : list (storage.Row (Time := nat)) :=
  [ storedRow Samples.url 100 (mkQuad "Example Language" "Designed by"
                                      "Robert X" "https://example.com/bio");
    storedRow Samples.url 100 (mkQuad "Example Language" "A" "B" "no citation") ].


(* ===================================================================== *)
(** * Properties *)
(* ===================================================================== *)

(** ** [Each] as a left fold *)

Lemma EachFrom_foldl {St : Type} (g : Selection -> St -> St) (s : Selection) :
  forall (i : nat) (st : St),
    EachFrom i s (fun _ => g) st = foldl (fun st p => g [p] st) st s.
Proof.
  induction s as [|p s IH]; intros i st; simpl; [reflexivity|].
  apply IH.
Qed.

Lemma Each_foldl {St : Type} (g : Selection -> St -> St) (s : Selection) (st : St) :
  Each s (fun _ => g) st = foldl (fun st p => g [p] st) st s.
Proof. apply EachFrom_foldl. Qed.

Lemma Each_nil {St : Type} (f : nat -> Selection -> St -> St) (st : St) :
  Each [] f st = st.
Proof. reflexivity. Qed.

Lemma Each_app {St : Type} (g : Selection -> St -> St) (s1 s2 : Selection) (st : St) :
  Each (s1 ++ s2) (fun _ => g) st = Each s2 (fun _ => g) (Each s1 (fun _ => g) st).
Proof. rewrite !Each_foldl. apply foldl_app. Qed.

(** A closure that only appends to its accumulator yields the
    concatenation of what it appends, in the order of the selection. *)
Lemma foldl_append {A B : Type} (F : B -> list A) (l : list B) :
  forall acc : list A,
    foldl (fun acc p => acc ++ F p) acc l = acc ++ flat_map F l.
Proof.
  induction l as [|p l IH]; intros acc; simpl.
  - by rewrite app_nil_r.
  - rewrite IH. by rewrite <- app_assoc.
Qed.

Lemma Each_append {A : Type} (F : Selection -> list A) (s : Selection) (acc : list A) :
  Each s (fun _ p acc => acc ++ F p) acc = acc ++ flat_map (fun p => F [p]) s.
Proof.
  rewrite (Each_foldl (fun p acc => acc ++ F p)).
  apply (foldl_append (fun p => F [p])).
Qed.

(** A closure that appends at most one element, or nothing. *)
Lemma Each_step_append {A : Type} (f : Selection -> list A -> list A)
      (F : Selection -> list A) (s : Selection) (acc : list A) :
  (forall p acc, f p acc = acc ++ F p) ->
  Each s (fun _ => f) acc = acc ++ flat_map (fun p => F [p]) s.
Proof.
  intros Hf. rewrite Each_foldl.
  revert acc. induction s as [|p s IH]; intros acc; simpl.
  - by rewrite app_nil_r.
  - rewrite IH, Hf. by rewrite <- app_assoc.
Qed.

(** ** [appendWithoutDuplicates], [mapNodes] and [Find] *)

Lemma elem_of_appendWithoutDuplicates (x : path) (nodes : list path) :
  forall target,
    x ∈ appendWithoutDuplicates target nodes <-> x ∈ target \/ x ∈ nodes.
Proof.
  induction nodes as [|n ns IH]; intros target; simpl.
  - rewrite elem_of_nil. tauto.
  - destruct (decide (n ∈ target)) as [Hin|Hnin]; rewrite IH.
    + rewrite elem_of_cons. split; [tauto|].
      intros [?|[->|?]]; tauto.
    + rewrite elem_of_app, list_elem_of_singleton, elem_of_cons. tauto.
Qed.

Lemma NoDup_appendWithoutDuplicates (nodes : list path) :
  forall target, NoDup target -> NoDup (appendWithoutDuplicates target nodes).
Proof.
  induction nodes as [|n ns IH]; intros target Hnd; simpl; [done|].
  destruct (decide (n ∈ target)) as [Hin|Hnin]; apply IH; [done|].
  apply NoDup_app. split; [done|]. split.
  - intros y Hy Hy'. apply list_elem_of_singleton in Hy'. by subst.
  - apply NoDup_singleton.
Qed.

Lemma appendWithoutDuplicates_NoDup (nodes : list path) :
  forall target,
    NoDup nodes -> (forall x, x ∈ nodes -> x ∉ target) ->
    appendWithoutDuplicates target nodes = target ++ nodes.
Proof.
  induction nodes as [|n ns IH]; intros target Hnd Hdisj; simpl.
  - by rewrite app_nil_r.
  - apply NoDup_cons in Hnd as [Hn Hns].
    destruct (decide (n ∈ target)) as [Hin|Hnin].
    + exfalso. apply (Hdisj n); [left|done].
    + rewrite IH; [by rewrite <- app_assoc|done|].
      intros x Hx. rewrite elem_of_app, list_elem_of_singleton.
      intros [Hx' | ->]; [|done].
      apply (Hdisj x); [by right|done].
Qed.

Lemma elem_of_foldl_appendWithoutDuplicates (f : path -> list path) (x : path)
      (nodes : list path) :
  forall acc,
    x ∈ foldl (fun result n => appendWithoutDuplicates result (f n)) acc nodes
    <-> x ∈ acc \/ exists p, p ∈ nodes /\ x ∈ f p.
Proof.
  induction nodes as [|n ns IH]; intros acc; simpl.
  - split; [tauto|]. intros [?|(p & Hp & _)]; [done|]. by apply elem_of_nil in Hp.
  - rewrite IH, elem_of_appendWithoutDuplicates. split.
    + intros [[?|?]|(p & Hp & Hx)]; [tauto| |].
      * right. exists n. split; [left|done].
      * right. exists p. split; [by right|done].
    + intros [?|(p & Hp & Hx)]; [tauto|].
      apply elem_of_cons in Hp as [->|Hp]; [tauto|].
      right. by exists p.
Qed.

Lemma elem_of_mapNodes (f : path -> list path) (x : path) (nodes : list path) :
  x ∈ mapNodes nodes f <-> exists p, p ∈ nodes /\ x ∈ f p.
Proof.
  unfold mapNodes. rewrite elem_of_foldl_appendWithoutDuplicates.
  rewrite elem_of_nil. tauto.
Qed.

Lemma mapNodes_singleton (f : path -> list path) (p : path) :
  NoDup (f p) -> mapNodes [p] f = f p.
Proof.
  intros Hnd. unfold mapNodes. simpl.
  rewrite appendWithoutDuplicates_NoDup; [done|done|].
  intros x _. apply not_elem_of_nil.
Qed.

Lemma mapNodes_nil (f : path -> list path) : mapNodes [] f = [].
Proof. reflexivity. Qed.

(** Membership in [Find]: a matching node strictly below a node of the
    selection. *)
Lemma elem_of_Find (doc : Node) (sel : Sel) (s : Selection) (q : path) :
  q ∈ Find doc sel s <->
  exists p n r, p ∈ s /\ nodeAt doc p = Some n /\ r ∈ descendants n /\
                q = p ++ r /\ Match sel doc q = true.
Proof.
  unfold Find. rewrite elem_of_mapNodes. split.
  - intros (p & Hp & Hq). destruct (nodeAt doc p) as [n|] eqn:Hn.
    + apply list_elem_of_filter in Hq as [Hm Hq].
      apply list_elem_of_fmap in Hq as (r & -> & Hr).
      exists p, n, r. repeat split; try done. by apply Is_true_true.
    + by apply elem_of_nil in Hq.
  - intros (p & n & r & Hp & Hn & Hr & -> & Hm).
    exists p. split; [done|]. rewrite Hn.
    apply list_elem_of_filter. split; [by apply Is_true_true|].
    apply list_elem_of_fmap. by exists r.
Qed.

Lemma Find_nil (doc : Node) (sel : Sel) : Find doc sel [] = [].
Proof. reflexivity. Qed.

(** ** Go strings *)

Lemma HasPrefix_app (s a b : string) :
  GoStrings.HasPrefix s (a +:+ b) = true -> GoStrings.HasPrefix s a = true.
Proof.
  revert s. induction a as [|c a IH]; intros s; simpl; [done|].
  destruct s as [|c' s]; [done|].
  destruct (Ascii.eqb c c'); [apply IH|done].
Qed.

Lemma Contains_app (s a b : string) :
  GoStrings.Contains s (a +:+ b) = true -> GoStrings.Contains s a = true.
Proof.
  induction s as [|c s IH]; simpl; rewrite !orb_true_iff.
  - intros [H|H]; [|done]. left. by apply (HasPrefix_app "" a b).
  - intros [H|H]; [left; by apply (HasPrefix_app _ a b)|right; by apply IH].
Qed.

Lemma Contains_prepend (p s x : string) :
  GoStrings.Contains s x = true -> GoStrings.Contains (p +:+ s) x = true.
Proof.
  intros H. induction p as [|c p IH]; simpl; [done|].
  rewrite IH. apply orb_true_r.
Qed.

Lemma TrimPrefix_unchanged (s prefix : string) :
  GoStrings.HasPrefix s prefix = false -> GoStrings.TrimPrefix s prefix = s.
Proof. unfold GoStrings.TrimPrefix. by intros ->. Qed.

(** ** The citation accumulator *)

Section citations.
Variable doc : Node.
Variable references : gmap string string.

Lemma citeHref_resolve (href : string) (v : citeVars) :
  citeVars_ok v ->
  citeHref references href v =
    match resolveHref references href with
    | Some t => if decide (t ∈ citations v) then v
                else mkCiteVars (citations v ++ [t]) (<[t := true]> (citationMap v))
    | None => v
    end.
Proof.
  intros Hok. unfold citeHref, resolveHref.
  destruct (GoStrings.Contains href "#cite_note-"); [|done].
  destruct (references !! _) as [t|]; [|done].
  destruct (decide (t ∈ citations v)) as [Hin|Hnin].
  - apply Hok in Hin. by rewrite Hin.
  - destruct (default false (citationMap v !! t)) eqn:E; [|done].
    exfalso. apply Hnin. by apply Hok.
Qed.

Lemma citeHref_ok (href : string) (v : citeVars) :
  citeVars_ok v -> citeVars_ok (citeHref references href v).
Proof.
  intros Hok. rewrite citeHref_resolve by done.
  destruct (resolveHref references href) as [t|]; [|done].
  destruct (decide (t ∈ citations v)); [done|].
  intros x. simpl. rewrite elem_of_app, list_elem_of_singleton.
  destruct (decide (t = x)) as [->|Hne].
  - rewrite lookup_insert_eq. simpl. tauto.
  - rewrite lookup_insert_ne by done. rewrite (Hok x). split; [tauto|].
    intros [?|?]; [done|congruence].
Qed.

(** One link of a scan does to the variables what its [href] does. *)
Lemma citeLink_hrefs (links : Selection) (v : citeVars) :
  Each links (fun i s => citeLink doc references s) v =
  foldl (fun v h => citeHref references h v) v (hrefs doc links).
Proof.
  rewrite (Each_foldl (citeLink doc references)).
  revert v. induction links as [|a links IH]; intros v; [done|].
  cbn [foldl]. rewrite IH. unfold hrefs, citeLink. cbn [omap list_omap].
  destruct (Attr doc [a] "href") as [h|]; done.
Qed.

Lemma foldl_citeHref_ok (hs : list string) (v : citeVars) :
  citeVars_ok v ->
  citeVars_ok (foldl (fun v h => citeHref references h v) v hs).
Proof.
  revert v. induction hs as [|h hs IH]; intros v Hok; simpl; [done|].
  apply IH. by apply citeHref_ok.
Qed.

(** The list after a scan: what was there, then the new distinct
    targets at their first occurrence. *)
Lemma foldl_citeHref_citations (hs : list string) (v : citeVars) :
  citeVars_ok v ->
  citations (foldl (fun v h => citeHref references h v) v hs) =
  citations v ++
    filter (fun t => t ∉ citations v)
           (firstOccurrences (omap (resolveHref references) hs)).
Proof.
  revert v. induction hs as [|h hs IH]; intros v Hok; simpl.
  - by rewrite app_nil_r.
  - rewrite IH by (by apply citeHref_ok).
    rewrite citeHref_resolve by done.
    destruct (resolveHref references h) as [t|]; simpl; [|done].
    destruct (decide (t ∈ citations v)) as [Hin|Hnin].
    + rewrite filter_cons_False by (intros ?; done).
      f_equal. rewrite list_filter_filter. apply list_filter_iff.
      intros x. split; [|tauto]. intros Hx. split; [done|]. congruence.
    + simpl. rewrite filter_cons_True by done.
      rewrite <- app_assoc. simpl. do 2 f_equal.
      rewrite list_filter_filter. apply list_filter_iff.
      intros x. rewrite elem_of_app, list_elem_of_singleton. tauto.
Qed.

End citations.

Lemma citeVars_ok_empty : citeVars_ok (mkCiteVars [] ∅).
Proof.
  intros t. simpl. rewrite lookup_empty. simpl. rewrite elem_of_nil.
  split; [done|tauto].
Qed.


Lemma firstOccurrences_elem_of (l : list string) (x : string) :
  x ∈ firstOccurrences l <-> x ∈ l.
Proof.
  induction l as [|y l IH]; simpl; [done|].
  rewrite !elem_of_cons, list_elem_of_filter, IH.
  destruct (decide (x = y)); tauto.
Qed.



Lemma filter_True_id {A : Type} (P : A -> Prop) `{!forall x, Decision (P x)}
      (l : list A) :
  (forall x, x ∈ l -> P x) -> filter P l = l.
Proof.
  induction l as [|x l IH]; intros Hall; [done|].
  rewrite filter_cons_True by (apply Hall; left).
  f_equal. apply IH. intros y Hy. apply Hall. by right.
Qed.

Lemma filter_False_nil {A : Type} (P : A -> Prop) `{!forall x, Decision (P x)}
      (l : list A) :
  (forall x, x ∈ l -> ~ P x) -> filter P l = [].
Proof.
  induction l as [|x l IH]; intros Hall; [done|].
  rewrite filter_cons_False by (apply Hall; left).
  apply IH. intros y Hy. apply Hall. by right.
Qed.

(** The whole of [extractCitations], in terms of the markers. *)
Lemma extractCitations_markers (doc : Node) (cell : Selection)
      (references : gmap string string) :
  extractCitations doc cell references =
  citationString (firstOccurrences (resolvedTargets doc cell references)).
Proof.
  unfold extractCitations, resolvedTargets, markers.
  rewrite !citeLink_hrefs, <- foldl_app.
  rewrite foldl_citeHref_citations by apply citeVars_ok_empty.
  simpl. f_equal. apply filter_True_id. intros x _. apply not_elem_of_nil.
Qed.

Lemma citationString_nil : citationString [] = "no citation".
Proof. reflexivity. Qed.

Lemma citationString_cons (t : string) (ts : list string) :
  citationString (t :: ts) = GoStrings.Join (t :: ts) "; ".
Proof. reflexivity. Qed.


(** ** The citation resolver *)



(** ** The superscript scan adds nothing *)

Lemma getAttributeValue_existsb (name v : string) (f : string -> bool)
      (attrs : list Attribute) :
  getAttributeValue name attrs = Some v -> f v = true ->
  existsb (fun a => String.eqb (Key a) name && f (Val a)) attrs = true.
Proof.
  intros Hget Hf. induction attrs as [|a attrs IH]; [done|].
  simpl in *. destruct (String.eqb (Key a) name); simpl.
  - injection Hget as ->. by rewrite Hf.
  - by apply IH.
Qed.

Lemma Attr_singleton (doc : Node) (q : path) (name v : string) :
  Attr doc [q] name = Some v <->
  exists n, nodeAt doc q = Some n /\ getAttributeValue name (html.Attr n) = Some v.
Proof.
  unfold Attr. destruct (nodeAt doc q) as [n|]; split.
  - intros H. by exists n.
  - intros (n' & [= <-] & H). done.
  - done.
  - intros (n' & [=] & _).
Qed.

(** A link that the superscript scan acts on is a citation-note anchor. *)
Lemma Match_sup_a_cite_note (doc : Node) (q : path) (h : string) :
  Match sel_sup_a doc q = true ->
  Attr doc [q] "href" = Some h ->
  GoStrings.Contains h "#cite_note-" = true ->
  Match sel_a_cite_note doc q = true.
Proof.
  intros Hm Hattr Hc. apply Attr_singleton in Hattr as (n & Hn & Hget).
  simpl in Hm. apply andb_true_iff in Hm as [Ha _].
  simpl. rewrite Ha. simpl.
  unfold matchNode in *. rewrite Hn in *.
  apply andb_true_iff in Ha as [Hel _].
  unfold matchAttribute. rewrite Hel. simpl.
  apply (getAttributeValue_existsb "href" h
           (fun v => GoStrings.Contains v "#cite_note")); [done|].
  by apply (Contains_app h "#cite_note" "-").
Qed.

Lemma Find_sup_a_cite_note (doc : Node) (cell : Selection) (q : path) (h : string) :
  q ∈ Find doc sel_sup_a cell ->
  Attr doc [q] "href" = Some h ->
  GoStrings.Contains h "#cite_note-" = true ->
  q ∈ Find doc sel_a_cite_note cell.
Proof.
  rewrite !elem_of_Find.
  intros (p & n & r & Hp & Hn & Hr & -> & Hm) Hattr Hc.
  exists p, n, r. repeat split; try done.
  by apply (Match_sup_a_cite_note doc _ h).
Qed.

Lemma elem_of_hrefs (doc : Node) (links : Selection) (h : string) :
  h ∈ hrefs doc links <-> exists a, a ∈ links /\ Attr doc [a] "href" = Some h.
Proof. unfold hrefs. apply list_elem_of_omap. Qed.

Lemma resolveHref_Contains (references : gmap string string) (h t : string) :
  resolveHref references h = Some t -> GoStrings.Contains h "#cite_note-" = true.
Proof. unfold resolveHref. by destruct (GoStrings.Contains h "#cite_note-"). Qed.

Section second_scan.
Variable references : gmap string string.

Lemma citeHref_noop (h : string) (v : citeVars) :
  citeVars_ok v ->
  (forall t, resolveHref references h = Some t -> t ∈ citations v) ->
  citeHref references h v = v.
Proof.
  intros Hok Hin. rewrite citeHref_resolve by done.
  destruct (resolveHref references h) as [t|]; [|done].
  by rewrite decide_True by (by apply Hin).
Qed.

Lemma foldl_citeHref_noop (hs : list string) (v : citeVars) :
  citeVars_ok v ->
  (forall h t, h ∈ hs -> resolveHref references h = Some t -> t ∈ citations v) ->
  foldl (fun v h => citeHref references h v) v hs = v.
Proof.
  intros Hok. induction hs as [|h hs IH]; intros Hin; simpl; [done|].
  rewrite citeHref_noop; [|done|].
  - apply IH. intros h' t Hh'. apply Hin. by right.
  - intros t. apply Hin. by left.
Qed.

Lemma foldl_citeHref_collects (hs : list string) (v : citeVars) (h t : string) :
  citeVars_ok v -> h ∈ hs -> resolveHref references h = Some t ->
  t ∈ citations (foldl (fun v h => citeHref references h v) v hs).
Proof.
  intros Hok Hh Ht. rewrite foldl_citeHref_citations by done.
  rewrite elem_of_app, list_elem_of_filter, firstOccurrences_elem_of.
  destruct (decide (t ∈ citations v)); [by left|right].
  split; [done|]. apply list_elem_of_omap. by exists h.
Qed.

End second_scan.

(** C9.  The scan of the links inside superscripts never adds a citation.
    A link it acts on (an [a] below a [sup], with a [href] that contains
    ["#cite_note-"]) is also selected by the scan of the citation-note
    anchors; its target is in the dedup map by then, so the second scan
    leaves [citations] and [citationMap] as the first left them, and
    [extractCitations] computes the same string without it. *)
Theorem extractCitations_superscript_scan_redundant
        (doc : Node) (cell : Selection) (references : gmap string string) :
  (forall q h,
      q ∈ Find doc sel_sup_a cell ->
      Attr doc [q] "href" = Some h ->
      GoStrings.Contains h "#cite_note-" = true ->
      q ∈ Find doc sel_a_cite_note cell) /\
  (let v1 := Each (Find doc sel_a_cite_note cell)
                  (fun i s => citeLink doc references s) (mkCiteVars [] ∅) in
   Each (Find doc sel_sup_a cell) (fun i s => citeLink doc references s) v1 = v1) /\
  extractCitations doc cell references =
  extractCitations_anchors_only doc cell references.
Proof.
  assert (Hsame :
    let v1 := Each (Find doc sel_a_cite_note cell)
                   (fun i s => citeLink doc references s) (mkCiteVars [] ∅) in
    Each (Find doc sel_sup_a cell) (fun i s => citeLink doc references s) v1 = v1).
  { intros v1. subst v1. rewrite !citeLink_hrefs.
    apply foldl_citeHref_noop.
    - apply foldl_citeHref_ok, citeVars_ok_empty.
    - intros h t Hh Ht.
      apply elem_of_hrefs in Hh as (a & Ha & Hattr).
      apply (foldl_citeHref_collects references _ _ h);
        [apply citeVars_ok_empty| |done].
      apply elem_of_hrefs. exists a. split; [|done].
      apply (Find_sup_a_cite_note doc cell a h); [done|done|].
      by apply (resolveHref_Contains references h t). }
  split; [|split; [exact Hsame|]].
  - intros q h. apply Find_sup_a_cite_note.
  - unfold extractCitations, extractCitations_anchors_only.
    cbv zeta in Hsame. by rewrite Hsame.
Qed.

(** The footnote link of the sample cell, below its [sup]. *)
Lemma extractCitations_superscript_scan_redundant_witness :
  Samples.cell_of_page ++ [1; 0] ∈
  Find Samples.page sel_a_cite_note [Samples.cell_of_page].
Proof.
  apply (extractCitations_superscript_scan_redundant
           Samples.page [Samples.cell_of_page] Samples.index)
    with (h := "#cite_note-1").
  - vm_compute. left.
  - reflexivity.
  - reflexivity.
Defined.

(** ** Links to the notes of another page *)

Lemma Contains_hash_of_cite_note (href : string) :
  GoStrings.Contains href "#cite_note-" = true ->
  GoStrings.Contains ("cite_note-" +:+ href) "#" = true.
Proof.
  intros H. apply Contains_prepend.
  by apply (Contains_app href "#" "cite_note-").
Qed.

Lemma resolveHref_foreign (references : gmap string string) (href : string) :
  keys_without_hash references ->
  GoStrings.HasPrefix href "#cite_note-" = false ->
  resolveHref references href = None.
Proof.
  intros Hkeys Hpre. unfold resolveHref.
  destruct (GoStrings.Contains href "#cite_note-") eqn:Hc; [|done].
  rewrite TrimPrefix_unchanged by done.
  destruct (references !! _) as [t|] eqn:Hl; [|done].
  exfalso. assert (Hs : is_Some (references !! ("cite_note-" +:+ href))) by eauto.
  apply Hkeys in Hs. rewrite Contains_hash_of_cite_note in Hs; done.
Qed.

Lemma citeHref_resolveHref_None (references : gmap string string)
      (href : string) (v : citeVars) :
  resolveHref references href = None -> citeHref references href v = v.
Proof.
  unfold resolveHref, citeHref.
  destruct (GoStrings.Contains href "#cite_note-"); [|done].
  by intros ->.
Qed.

Lemma omap_filter_Some {A B : Type} (f : A -> option B) (P : A -> Prop)
      `{!forall x, Decision (P x)} (l : list A) :
  (forall x, x ∈ l -> ~ P x -> f x = None) ->
  omap f (filter P l) = omap f l.
Proof.
  induction l as [|x l IH]; intros Hnone; [done|].
  assert (IH' : omap f (filter P l) = omap f l).
  { apply IH. intros y Hy. apply Hnone. by right. }
  destruct (decide (P x)) as [HP|HP].
  - rewrite filter_cons_True by done. cbn [omap list_omap].
    destruct (f x); [f_equal|]; apply IH'.
  - rewrite filter_cons_False by done. cbn [omap list_omap].
    rewrite (Hnone x); [apply IH'|left|done].
Qed.

(** C10.  With an index none of whose keys has a ['#'], a link whose
    [href] contains ["#cite_note"] but does not begin with ["#cite_note-"]
    (the note of another page, an absolute address) contributes no
    citation: [TrimPrefix] leaves the [href] as it is, the key looked up
    is in no index, and the link leaves the variables of the scan as they
    are, whatever they hold.  So the targets of a cell are those of the
    links that do begin with the prefix. *)
Theorem foreign_cite_note_link_contributes_nothing
        (doc : Node) (cell : Selection) (references : gmap string string) :
  keys_without_hash references ->
  (forall (s : Selection) (href : string) (v : citeVars),
      Attr doc s "href" = Some href ->
      GoStrings.Contains href "#cite_note" = true ->
      GoStrings.HasPrefix href "#cite_note-" = false ->
      GoStrings.TrimPrefix href "#cite_note-" = href /\
      references !! ("cite_note-" +:+ href) = None /\
      citeLink doc references s v = v) /\
  resolvedTargets doc cell references =
    omap (resolveHref references)
         (filter (fun h => GoStrings.HasPrefix h "#cite_note-" = true)
                 (markers doc cell)).
Proof.
  intros Hkeys. split.
  - intros s href v Hattr Hc Hpre. split; [by apply TrimPrefix_unchanged|]. split.
    + destruct (references !! _) as [t|] eqn:Hl; [|done].
      assert (Hs : is_Some (references !! ("cite_note-" +:+ href))) by eauto.
      apply Hkeys in Hs. rewrite Contains_prepend in Hs; [done|].
      by apply (Contains_app href "#" "cite_note").
    + unfold citeLink. rewrite Hattr.
      apply citeHref_resolveHref_None. by apply resolveHref_foreign.
  - unfold resolvedTargets. symmetry. apply omap_filter_Some.
    intros h _ Hpre. apply resolveHref_foreign; [done|].
    by destruct (GoStrings.HasPrefix h "#cite_note-").
Qed.

Lemma keys_without_hash_sample : keys_without_hash Samples.index.
Proof.
  intros k [v Hk]. unfold Samples.index in Hk.
  apply lookup_singleton_Some in Hk as [<- _]. reflexivity.
Qed.

(** The link to the note of another page in the sample cell. *)
Lemma foreign_cite_note_link_contributes_nothing_witness :
  citeLink Samples.page Samples.index [Samples.cell_of_page ++ [2]]
           (mkCiteVars [] ∅) = mkCiteVars [] ∅.
Proof.
  apply (foreign_cite_note_link_contributes_nothing
           Samples.page [Samples.cell_of_page] Samples.index
           keys_without_hash_sample)
    with (href := "/wiki/Other#cite_note-1"); reflexivity.
Defined.

(** ** The reference index *)

(** After a run of assignments a key holds the last value assigned to
    it, or what it held before. *)
Lemma lookup_foldl_assign (ws : list (string * string)) (id : string) :
  forall m : gmap string string,
    foldl assign m ws !! id =
    match last (filter (fun w => w.1 = id) ws) with
    | Some w => Some w.2
    | None => m !! id
    end.
Proof.
  induction ws as [|w ws IH]; intros m; [done|].
  cbn [foldl]. rewrite IH. unfold assign.
  destruct (decide (w.1 = id)) as [Heq|Hne].
  - rewrite filter_cons_True by done. rewrite last_cons.
    destruct (last (filter _ ws)); [done|].
    by rewrite Heq, lookup_insert_eq.
  - rewrite filter_cons_False by done.
    destruct (last (filter _ ws)); [done|].
    by rewrite lookup_insert_ne.
Qed.

Section reference_index.
Variable doc : Node.

Lemma recordItem_writes (li : path) (references : gmap string string) :
  recordItem doc [li] references = foldl assign references (itemWrites doc li).
Proof.
  unfold recordItem, itemWrites, itemLinks, hrefs.
  destruct (Attr doc [li] "id") as [id|]; [|done].
  rewrite (Each_foldl (recordLink doc id)).
  generalize (Find doc sel_a_http [li]). intros links. revert references.
  induction links as [|a links IH]; intros references; [done|].
  cbn [foldl omap list_omap]. rewrite IH. unfold recordLink.
  destruct (Attr doc [a] "href") as [h|]; done.
Qed.

Lemma foldl_recordItem_writes (items : list path) :
  forall references : gmap string string,
    foldl (fun refs li => recordItem doc [li] refs) references items =
    foldl assign references (flat_map (itemWrites doc) items).
Proof.
  induction items as [|li items IH]; intros references; [done|].
  cbn [foldl flat_map]. rewrite foldl_app, IH. by rewrite recordItem_writes.
Qed.

(** [extractReferences] is the run of the assignments of the scanned
    items, from the empty map. *)
Lemma extractReferences_writes (d : Selection) :
  extractReferences doc d =
  foldl assign ∅ (flat_map (itemWrites doc) (scannedItems doc d)).
Proof.
  unfold extractReferences, scannedItems.
  rewrite (Each_foldl (recordItem doc)).
  rewrite (Each_foldl (fun s references =>
             Each (Find doc sel_li s) (fun j li => recordItem doc li) references)).
  rewrite flat_map_app, foldl_app, !foldl_recordItem_writes. f_equal.
  generalize (Find doc sel_reference_sections d). intros sections.
  generalize (∅ : gmap string string).
  induction sections as [|s sections IH]; intros references; [done|].
  cbn [foldl flat_map]. rewrite IH, flat_map_app, foldl_app. f_equal.
  rewrite (Each_foldl (recordItem doc)). apply foldl_recordItem_writes.
Qed.

Lemma filter_itemWrites_same (li : path) (id : string) :
  Attr doc [li] "id" = Some id ->
  filter (fun w : string * string => w.1 = id) (itemWrites doc li) =
  map (pair id) (itemLinks doc li).
Proof.
  intros Hid. unfold itemWrites. rewrite Hid.
  apply filter_True_id. intros w Hw.
  apply list_elem_of_fmap in Hw as (h & -> & _). done.
Qed.

Lemma filter_itemWrites_other (li : path) (id : string) :
  (Attr doc [li] "id" = Some id -> itemLinks doc li = []) ->
  filter (fun w : string * string => w.1 = id) (itemWrites doc li) = [].
Proof.
  intros Hother. unfold itemWrites in *.
  destruct (Attr doc [li] "id") as [id'|]; [|done].
  destruct (decide (id' = id)) as [->|Hne].
  - by rewrite Hother.
  - apply filter_False_nil. intros w Hw.
    apply list_elem_of_fmap in Hw as (h & -> & _). done.
Qed.

Lemma filter_flat_map_itemWrites_other (items : list path) (id : string) :
  (forall li, li ∈ items -> Attr doc [li] "id" = Some id -> itemLinks doc li = []) ->
  filter (fun w : string * string => w.1 = id)
         (flat_map (itemWrites doc) items) = [].
Proof.
  induction items as [|li items IH]; intros Hother; [done|].
  cbn [flat_map]. rewrite filter_app, IH.
  - rewrite filter_itemWrites_other; [done|]. apply Hother. left.
  - intros li' Hli'. apply Hother. by right.
Qed.

End reference_index.

(** C1, as the code has it.  The index maps the identifier of a list item
    to the LAST external link found inside the item, and a later item
    with the same identifier overwrites an earlier one: when [li] is the
    last scanned item with identifier [id] that has an external link, the
    entry for [id] is the last external link of [li]. *)
Theorem extractReferences_last_writer_wins
        (doc : Node) (d : Selection) (items1 items2 : list path)
        (li : path) (id : string) :
  scannedItems doc d = items1 ++ li :: items2 ->
  Attr doc [li] "id" = Some id ->
  itemLinks doc li <> [] ->
  (forall li', li' ∈ items2 -> Attr doc [li'] "id" = Some id ->
               itemLinks doc li' = []) ->
  extractReferences doc d !! id = last (itemLinks doc li).
Proof.
  intros Hitems Hid Hlinks Hlater.
  rewrite extractReferences_writes, lookup_foldl_assign, Hitems.
  rewrite flat_map_app. cbn [flat_map].
  rewrite !filter_app, filter_itemWrites_same by done.
  rewrite (filter_flat_map_itemWrites_other doc items2 id Hlater).
  rewrite app_nil_r, last_app, fmap_last.
  destruct (last (itemLinks doc li)) as [h|] eqn:Hlast; [done|].
  by apply last_None in Hlast.
Qed.

(** The note of the sample page is scanned twice, once by each scan; its
    entry is its second external link. *)
Lemma extractReferences_last_writer_wins_witness :
  extractReferences Samples.page [Samples.body_of_page] !! "cite_note-1" =
  Some "https://archive.org/bio".
Proof.
  apply (extractReferences_last_writer_wins
           Samples.page [Samples.body_of_page]
           [Samples.note_of_page] [] Samples.note_of_page "cite_note-1").
  - reflexivity.
  - reflexivity.
  - vm_compute. discriminate.
  - intros li' Hli'. by apply elem_of_nil in Hli'.
Defined.

(** C1, as stated, fails: the entry of an item is not its first
    external link. *)
Lemma extractReferences_first_link_counterexample :
  ~ (forall (doc : Node) (d : Selection) (li : path) (id : string),
        li ∈ scannedItems doc d ->
        Attr doc [li] "id" = Some id ->
        itemLinks doc li <> [] ->
        extractReferences doc d !! id = head (itemLinks doc li)).
Proof.
  intros Hclaim.
  specialize (Hclaim Samples.page [Samples.body_of_page]
                     Samples.note_of_page "cite_note-1").
  assert (Hentry : extractReferences Samples.page [Samples.body_of_page]
                     !! "cite_note-1" = Some "https://archive.org/bio")
    by (vm_compute; reflexivity).
  rewrite Hentry in Hclaim.
  assert (Hfirst : head (itemLinks Samples.page Samples.note_of_page)
                   = Some "https://example.com/bio") by reflexivity.
  rewrite Hfirst in Hclaim.
  discriminate Hclaim.
  - vm_compute. left.
  - reflexivity.
  - vm_compute. discriminate.
Qed.

(** ** The row parsers *)

Lemma nonEmpty_true (s : string) : nonEmpty s = true <-> s <> "".
Proof.
  unfold nonEmpty. rewrite negb_true_iff. apply String.eqb_neq.
Qed.

Lemma nonEmpty_both (a b : string) :
  nonEmpty a && nonEmpty b = true <-> a <> "" /\ b <> "".
Proof. by rewrite andb_true_iff, !nonEmpty_true. Qed.

Lemma snoc_neq {A : Type} (l : list A) (x : A) : l <> l ++ [x].
Proof.
  intros H. apply (f_equal length) in H. rewrite length_app in H.
  simpl in H. lia.
Qed.

Lemma string_app_empty_r (s : string) : s +:+ "" = s.
Proof.
  induction s as [|c s IH]; [done|].
  change (String c (s +:+ "") = String c s). by rewrite IH.
Qed.

Lemma Text_singleton (doc : Node) (p : path) : Text doc [p] = textAt doc p.
Proof. cbn [Text]. apply string_app_empty_r. Qed.

Lemma Text_nil (doc : Node) : Text doc [] = "".
Proof. reflexivity. Qed.

Lemma TrimSpace_empty : GoStrings.TrimSpace "" = "".
Proof. reflexivity. Qed.

(** ** Strings: append, reversal, prefixes *)

Lemma string_app_cons (a : Ascii.ascii) (s t : string) :
  String a s +:+ t = String a (s +:+ t).
Proof. reflexivity. Qed.

Lemma string_app_nil_l (t : string) : "" +:+ t = t.
Proof. reflexivity. Qed.

Lemma string_app_assoc (s t u : string) : (s +:+ t) +:+ u = s +:+ (t +:+ u).
Proof.
  induction s as [|a s IH]; [done|].
  rewrite !string_app_cons. by rewrite IH.
Qed.

Lemma rev_app_append (s acc : string) :
  String.rev_app s acc = String.rev s +:+ acc.
Proof.
  unfold String.rev. revert acc.
  induction s as [|a s IH]; intros acc; [done|]. simpl.
  rewrite (IH (String a acc)), (IH (String a "")).
  by rewrite string_app_assoc.
Qed.

Lemma string_rev_cons (a : Ascii.ascii) (s : string) :
  String.rev (String a s) = String.rev s +:+ String a "".
Proof. unfold String.rev at 1. simpl. apply rev_app_append. Qed.

Lemma string_rev_app (s t : string) :
  String.rev (s +:+ t) = String.rev t +:+ String.rev s.
Proof.
  induction s as [|a s IH].
  - by rewrite string_app_nil_l, string_app_empty_r.
  - rewrite string_app_cons, !string_rev_cons, IH.
    by rewrite string_app_assoc.
Qed.

Lemma string_rev_involutive (s : string) : String.rev (String.rev s) = s.
Proof.
  induction s as [|a s IH]; [done|].
  by rewrite string_rev_cons, string_rev_app, IH.
Qed.

(** Induction on a string by its length. *)
Lemma string_length_ind (P : string -> Prop) :
  (forall s, (forall t, String.length t < String.length s -> P t) -> P s) ->
  forall s, P s.
Proof.
  intros Hstep s.
  assert (Hall : forall n t, String.length t < n -> P t).
  { induction n as [|n IH]; intros t Hlt; [lia|].
    apply Hstep. intros u Hu. apply IH. lia. }
  apply (Hall (S (String.length s))). lia.
Qed.

(** ** [TrimSpace] leaves nothing to trim *)

Lemma trimLeft_clean (s : string) : leadSpace s = false -> GoStrings.trimLeft s = s.
Proof.
  destruct s as [|a [|b [|c r]]]; simpl; [done| | |].
  - rewrite orb_false_r. by intros ->.
  - rewrite orb_false_r. intros H. apply orb_false_iff in H as [-> ->]. done.
  - intros H. apply orb_false_iff in H as [-> H].
    apply orb_false_iff in H as [-> ->]. done.
Qed.

Lemma trimLeftRev_clean (s : string) :
  leadSpaceRev s = false -> GoStrings.trimLeftRev s = s.
Proof.
  destruct s as [|a [|b [|c r]]]; simpl; [done| | |].
  - rewrite orb_false_r. by intros ->.
  - rewrite orb_false_r. intros H. apply orb_false_iff in H as [-> ->]. done.
  - intros H. apply orb_false_iff in H as [-> H].
    apply orb_false_iff in H as [-> ->]. done.
Qed.

Lemma leadSpace_trimLeft (s : string) : leadSpace (GoStrings.trimLeft s) = false.
Proof.
  induction s as [s IH] using string_length_ind.
  destruct s as [|a r1]; [done|]. cbn [GoStrings.trimLeft].
  destruct (GoStrings.asciiSpace a) eqn:Ha; [apply IH; simpl; lia|].
  destruct r1 as [|b r2]; [by simpl; rewrite Ha|].
  destruct (GoStrings.space2 a b) eqn:Hb; [apply IH; simpl; lia|].
  destruct r2 as [|c r3]; [by simpl; rewrite Ha, Hb|].
  destruct (GoStrings.space3 a b c) eqn:Hc; [apply IH; simpl; lia|].
  by simpl; rewrite Ha, Hb, Hc.
Qed.

Lemma leadSpaceRev_trimLeftRev (s : string) :
  leadSpaceRev (GoStrings.trimLeftRev s) = false.
Proof.
  induction s as [s IH] using string_length_ind.
  destruct s as [|a r1]; [done|]. cbn [GoStrings.trimLeftRev].
  destruct (GoStrings.asciiSpace a) eqn:Ha; [apply IH; simpl; lia|].
  destruct r1 as [|b r2]; [by simpl; rewrite Ha|].
  destruct (GoStrings.space2 b a) eqn:Hb; [apply IH; simpl; lia|].
  destruct r2 as [|c r3]; [by simpl; rewrite Ha, Hb|].
  destruct (GoStrings.space3 c b a) eqn:Hc; [apply IH; simpl; lia|].
  by simpl; rewrite Ha, Hb, Hc.
Qed.

(** What [trimLeftRev] returns is the end of its argument. *)
Lemma trimLeftRev_suffix (s : string) :
  exists pre, s = pre +:+ GoStrings.trimLeftRev s.
Proof.
  induction s as [s IH] using string_length_ind.
  destruct s as [|a r1]; [by exists ""|]. cbn [GoStrings.trimLeftRev].
  destruct (GoStrings.asciiSpace a).
  { destruct (IH r1) as [pre Hpre]; [simpl; lia|].
    exists (String a pre). rewrite string_app_cons. by rewrite <- Hpre. }
  destruct r1 as [|b r2]; [by exists ""|].
  destruct (GoStrings.space2 b a).
  { destruct (IH r2) as [pre Hpre]; [simpl; lia|].
    exists (String a (String b pre)). rewrite !string_app_cons. by rewrite <- Hpre. }
  destruct r2 as [|c r3]; [by exists ""|].
  destruct (GoStrings.space3 c b a); [|by exists ""].
  destruct (IH r3) as [pre Hpre]; [simpl; lia|].
  exists (String a (String b (String c pre))).
  rewrite !string_app_cons. by rewrite <- Hpre.
Qed.

(** What [trimRight] returns is the beginning of its argument. *)
Lemma trimRight_prefix (s : string) :
  exists post, s = GoStrings.trimRight s +:+ post.
Proof.
  unfold GoStrings.trimRight.
  destruct (trimLeftRev_suffix (String.rev s)) as [pre Hpre].
  exists (String.rev pre).
  rewrite <- string_rev_app, <- Hpre. by rewrite string_rev_involutive.
Qed.

Lemma leadSpace_prefix (u w : string) :
  leadSpace u = true -> leadSpace (u +:+ w) = true.
Proof.
  destruct u as [|a [|b [|c r]]]; [done| | |];
    rewrite ?string_app_cons, ?string_app_nil_l; simpl.
  - rewrite orb_false_r. by intros ->.
  - rewrite orb_false_r. intros H. apply orb_true_iff in H as [-> | ->]; [done|].
    by rewrite orb_true_r.
  - done.
Qed.

(** [strings.TrimSpace] is idempotent. *)
Lemma TrimSpace_trimmed (s : string) : trimmed (GoStrings.TrimSpace s).
Proof.
  unfold trimmed, GoStrings.TrimSpace.
  set (t := GoStrings.trimLeft s).
  assert (Hhead : leadSpace (GoStrings.trimRight t) = false).
  { destruct (leadSpace (GoStrings.trimRight t)) eqn:E; [|done].
    destruct (trimRight_prefix t) as [post Hpost].
    apply (leadSpace_prefix _ post) in E. rewrite <- Hpost in E.
    unfold t in E. by rewrite leadSpace_trimLeft in E. }
  rewrite (trimLeft_clean _ Hhead).
  unfold GoStrings.trimRight at 1 3. f_equal.
  unfold GoStrings.trimRight. rewrite string_rev_involutive.
  apply trimLeftRev_clean, leadSpaceRev_trimLeftRev.
Qed.

(** ** What [TrimSpace] takes off *)

Lemma trimLeft_blank (s : string) :
  GoStrings.trimLeft s = "" <-> blank s = true.
Proof.
  induction s as [s IH] using string_length_ind.
  destruct s as [|a r1]; [done|]. cbn [GoStrings.trimLeft blank].
  destruct (GoStrings.asciiSpace a); [apply IH; simpl; lia|].
  destruct r1 as [|b r2]; [done|].
  destruct (GoStrings.space2 a b); [apply IH; simpl; lia|].
  destruct r2 as [|c r3]; [done|].
  destruct (GoStrings.space3 a b c); [apply IH; simpl; lia|done].
Qed.

(** What [trimLeft] drops is white space. *)
Lemma trimLeft_split (s : string) :
  exists pre, s = pre +:+ GoStrings.trimLeft s /\ blank pre = true.
Proof.
  induction s as [s IH] using string_length_ind.
  destruct s as [|a r1]; [by exists ""|]. cbn [GoStrings.trimLeft].
  destruct (GoStrings.asciiSpace a) eqn:Ha.
  { destruct (IH r1) as (pre & Hpre & Hb); [simpl; lia|].
    exists (String a pre). rewrite string_app_cons, <- Hpre.
    split; [done|]. cbn [blank]. by rewrite Ha. }
  destruct r1 as [|b r2]; [by exists ""|].
  destruct (GoStrings.space2 a b) eqn:Hab.
  { destruct (IH r2) as (pre & Hpre & Hb); [simpl; lia|].
    exists (String a (String b pre)). rewrite !string_app_cons, <- Hpre.
    split; [done|]. cbn [blank]. by rewrite Ha, Hab. }
  destruct r2 as [|c r3]; [by exists ""|].
  destruct (GoStrings.space3 a b c) eqn:Habc; [|by exists ""].
  destruct (IH r3) as (pre & Hpre & Hb); [simpl; lia|].
  exists (String a (String b (String c pre))).
  rewrite !string_app_cons, <- Hpre.
  split; [done|]. cbn [blank]. by rewrite Ha, Hab, Habc.
Qed.

Lemma trimLeftRev_split (s : string) :
  exists pre, s = pre +:+ GoStrings.trimLeftRev s /\ blankRev pre = true.
Proof.
  induction s as [s IH] using string_length_ind.
  destruct s as [|a r1]; [by exists ""|]. cbn [GoStrings.trimLeftRev].
  destruct (GoStrings.asciiSpace a) eqn:Ha.
  { destruct (IH r1) as (pre & Hpre & Hb); [simpl; lia|].
    exists (String a pre). rewrite string_app_cons, <- Hpre.
    split; [done|]. cbn [blankRev]. by rewrite Ha. }
  destruct r1 as [|b r2]; [by exists ""|].
  destruct (GoStrings.space2 b a) eqn:Hab.
  { destruct (IH r2) as (pre & Hpre & Hb); [simpl; lia|].
    exists (String a (String b pre)). rewrite !string_app_cons, <- Hpre.
    split; [done|]. cbn [blankRev]. by rewrite Ha, Hab. }
  destruct r2 as [|c r3]; [by exists ""|].
  destruct (GoStrings.space3 c b a) eqn:Habc; [|by exists ""].
  destruct (IH r3) as (pre & Hpre & Hb); [simpl; lia|].
  exists (String a (String b (String c pre))).
  rewrite !string_app_cons, <- Hpre.
  split; [done|]. cbn [blankRev]. by rewrite Ha, Hab, Habc.
Qed.

(** A string that [trimLeftRev] eats whole is empty or, read the other
    way round, begins with a white-space rune. *)
Lemma trimLeftRev_empty (s : string) :
  GoStrings.trimLeftRev s = "" -> s = "" \/ leadSpace (String.rev s) = true.
Proof.
  induction s as [s IH] using string_length_ind.
  destruct s as [|a r1]; [by left|]. cbn [GoStrings.trimLeftRev].
  destruct (GoStrings.asciiSpace a) eqn:Ha.
  { intros H. right.
    destruct (IH r1 ltac:(simpl; lia) H) as [-> | H'].
    - simpl. by rewrite Ha.
    - rewrite string_rev_cons. by apply leadSpace_prefix. }
  destruct r1 as [|b r2]; [done|].
  destruct (GoStrings.space2 b a) eqn:Hab.
  { intros H. right.
    destruct (IH r2 ltac:(simpl; lia) H) as [-> | H'].
    - simpl. rewrite Hab. by rewrite orb_true_r.
    - rewrite !string_rev_cons, string_app_assoc. by apply leadSpace_prefix. }
  destruct r2 as [|c r3]; [done|].
  destruct (GoStrings.space3 c b a) eqn:Habc; [|done].
  intros H. right.
  destruct (IH r3 ltac:(simpl; lia) H) as [-> | H'].
  - simpl. rewrite Habc. by rewrite !orb_true_r.
  - rewrite !string_rev_cons, !string_app_assoc. by apply leadSpace_prefix.
Qed.

Lemma string_rev_empty (s : string) : String.rev s = "" -> s = "".
Proof.
  intros H. apply (f_equal String.rev) in H.
  by rewrite string_rev_involutive in H.
Qed.

(** [TrimSpace] leaves nothing exactly of the strings of white space. *)
Lemma TrimSpace_blank (s : string) :
  GoStrings.TrimSpace s = "" <-> blank s = true.
Proof.
  rewrite <- trimLeft_blank. unfold GoStrings.TrimSpace, GoStrings.trimRight.
  split.
  - intros H. apply string_rev_empty, trimLeftRev_empty in H as [H|H].
    + by apply string_rev_empty.
    + rewrite string_rev_involutive in H.
      by rewrite leadSpace_trimLeft in H.
  - by intros ->.
Qed.

Lemma nonEmpty_TrimSpace (s : string) :
  nonEmpty (GoStrings.TrimSpace s) = negb (blank s).
Proof.
  unfold nonEmpty. f_equal.
  destruct (blank s) eqn:Hb.
  - apply TrimSpace_blank in Hb. by rewrite Hb.
  - apply String.eqb_neq. intros H. apply TrimSpace_blank in H. congruence.
Qed.

(** [TrimSpace] gives the string without the white space at its ends. *)
Lemma TrimSpace_trimOf (s : string) : trimOf s (GoStrings.TrimSpace s).
Proof.
  unfold GoStrings.TrimSpace.
  destruct (trimLeft_split s) as (pre & Hpre & Hbpre).
  set (t := GoStrings.trimLeft s) in *.
  destruct (trimLeftRev_split (String.rev t)) as (eaten & Heaten & Hbeaten).
  assert (Ht : t = GoStrings.trimRight t +:+ String.rev eaten).
  { unfold GoStrings.trimRight. rewrite <- string_rev_app, <- Heaten.
    by rewrite string_rev_involutive. }
  exists pre, (String.rev eaten). split; [|split; [done|split; [|split]]].
  - by rewrite <- Ht.
  - by rewrite string_rev_involutive.
  - destruct (leadSpace (GoStrings.trimRight t)) eqn:E; [|done].
    apply (leadSpace_prefix _ (String.rev eaten)) in E. rewrite <- Ht in E.
    unfold t in E. by rewrite leadSpace_trimLeft in E.
  - unfold GoStrings.trimRight. rewrite string_rev_involutive.
    apply leadSpaceRev_trimLeftRev.
Qed.

Section rows.
Variable doc : Node.
Variable subject : string.
Variable references : gmap string string.

(** What a row of an info panel does, by cases. *)
Lemma infoboxRow_cases (s : Selection) (quads : list Quad) :
  infoboxRow doc subject references s quads =
  if isHeaderRow doc s then quads
  else if nonEmpty (infoboxLabel doc s) && nonEmpty (infoboxValue doc s)
       then quads ++ [mkQuad subject (infoboxLabel doc s) (infoboxValue doc s)
                             (extractCitations doc (Find doc sel_td s) references)]
       else quads.
Proof. reflexivity. Qed.

(** What a row of a table does, by cases. *)
Lemma tableRow_cases (s : Selection) (quads : list Quad) :
  tableRow doc subject references s quads =
  if nonEmpty (tableLabel doc s) && nonEmpty (tableValue doc s)
  then quads ++ [mkQuad subject (tableLabel doc s) (tableValue doc s)
                        (extractCitations doc (Eq (Find doc sel_td_th s) 1) references)]
  else quads.
Proof.
  unfold tableRow, tableLabel, tableValue, Length.
  destruct (2 <=? length (Find doc sel_td_th s)) eqn:Hlen; [done|].
  apply Nat.leb_gt in Hlen.
  assert (Hnone : Find doc sel_td_th s !! 1 = None)
    by (apply lookup_ge_None; lia).
  unfold Eq at 2. rewrite Hnone. rewrite Text_nil, TrimSpace_empty.
  by rewrite andb_false_r.
Qed.

Lemma infoboxRow_append (s : Selection) (quads : list Quad) :
  infoboxRow doc subject references s quads =
  quads ++ infoboxRow doc subject references s [].
Proof.
  rewrite !infoboxRow_cases.
  destruct (isHeaderRow doc s); [by rewrite app_nil_r|].
  destruct (nonEmpty _ && nonEmpty _); [done|by rewrite app_nil_r].
Qed.

Lemma tableRow_append (s : Selection) (quads : list Quad) :
  tableRow doc subject references s quads =
  quads ++ tableRow doc subject references s [].
Proof.
  rewrite !tableRow_cases.
  destruct (nonEmpty _ && nonEmpty _); [done|by rewrite app_nil_r].
Qed.

(** A region yields what its rows yield, in the order of the rows. *)
Lemma parseInfobox_rows (infobox : Selection) :
  parseInfobox doc infobox subject references =
  flat_map (fun r => infoboxRow doc subject references [r] [])
           (Find doc sel_tr infobox).
Proof.
  unfold parseInfobox.
  rewrite (Each_step_append (infoboxRow doc subject references)
             (fun s => infoboxRow doc subject references s [])); [done|].
  intros p acc. apply infoboxRow_append.
Qed.

Lemma parseTable_rows (table : Selection) :
  parseTable doc table subject references =
  flat_map (fun r => tableRow doc subject references [r] [])
           (Find doc sel_tr table).
Proof.
  unfold parseTable.
  rewrite (Each_step_append (tableRow doc subject references)
             (fun s => tableRow doc subject references s [])); [done|].
  intros p acc. apply tableRow_append.
Qed.

End rows.

(** ** Document order of a selection *)

Lemma descendants_children (n : Node) :
  descendants n = descendantsFrom 0 (children n).
Proof.
  destruct n as [t d a cs]. simpl. generalize 0.
  induction cs as [|c cs IH]; intros i; [done|].
  simpl. by rewrite IH.
Qed.

Lemma descendantsFrom_head (cs : list Node) :
  forall i q, q ∈ descendantsFrom i cs -> exists j r, q = j :: r /\ i <= j.
Proof.
  induction cs as [|c cs IH]; intros i q Hq; simpl in Hq.
  - by apply elem_of_nil in Hq.
  - apply elem_of_cons in Hq as [->|Hq]; [by exists i, []|].
    apply elem_of_app in Hq as [Hq|Hq].
    + apply list_elem_of_fmap in Hq as (r & -> & _). by exists i, r.
    + apply IH in Hq as (j & r & -> & Hle). exists j, r. split; [done|lia].
Qed.

Lemma descendants_nonempty (n : Node) (q : path) :
  q ∈ descendants n -> q <> [].
Proof.
  rewrite descendants_children. intros Hq.
  apply descendantsFrom_head in Hq as (j & r & -> & _). done.
Qed.

Lemma StronglySorted_map {A B : Type} (R1 : relation A) (R2 : relation B)
      (f : A -> B) (l : list A) :
  (forall x y, R1 x y -> R2 (f x) (f y)) ->
  StronglySorted R1 l -> StronglySorted R2 (map f l).
Proof.
  intros Hf Hl. induction Hl as [|x l Hl IH Hx]; simpl; constructor; [done|].
  apply List.Forall_map. eapply Forall_impl; [exact Hx|]. intros y. apply Hf.
Qed.

Lemma StronglySorted_filter {A : Type} (R : relation A) (P : A -> Prop)
      `{!forall x, Decision (P x)} (l : list A) :
  StronglySorted R l -> StronglySorted R (filter P l).
Proof.
  intros Hl. induction Hl as [|x l Hl IH Hx]; [constructor|].
  destruct (decide (P x)).
  - rewrite filter_cons_True by done. constructor; [done|].
    rewrite Forall_forall in *. intros y Hy.
    apply list_elem_of_filter in Hy as [_ Hy]. by apply Hx.
  - by rewrite filter_cons_False by done.
Qed.

Lemma StronglySorted_before_NoDup (l : list path) :
  StronglySorted before l -> NoDup l.
Proof.
  assert (Hirr : forall p, ~ before p p).
  { induction p as [|i p IH]; simpl; [tauto|]. intros [?|[_ ?]]; [lia|tauto]. }
  intros Hl. induction Hl as [|x l Hl IH Hx]; constructor; [|done].
  intros Hin. rewrite Forall_forall in Hx. by apply (Hirr x), Hx.
Qed.

Lemma before_app (p a b : path) : before a b -> before (p ++ a) (p ++ b).
Proof. intros H. induction p as [|i p IH]; simpl; [done|]. by right. Qed.

(** The descendants of a node are listed in document order. *)
Lemma descendants_sorted (n : Node) : StronglySorted before (descendants n).
Proof.
  induction n as [t d a cs IH] using Node_induction.
  rewrite descendants_children. simpl. generalize 0.
  induction cs as [|c cs IHcs]; intros i; simpl; [constructor|].
  apply Forall_cons in IH as [Hc Hcs].
  change ([i] :: map (cons i) (descendants c) ++ descendantsFrom (S i) cs)
    with (([i] :: map (cons i) (descendants c)) ++ descendantsFrom (S i) cs).
  apply StronglySorted_app. split; [|split].
  - intros x1 x2 Hx1 Hx2.
    apply descendantsFrom_head in Hx2 as (j & r & -> & Hle).
    apply elem_of_cons in Hx1 as [->|Hx1]; [simpl; lia|].
    apply list_elem_of_fmap in Hx1 as (r1 & -> & _). simpl. lia.
  - constructor.
    + apply (StronglySorted_map before); [|done].
      intros x y Hxy. simpl. by right.
    + apply List.Forall_map, Forall_forall. intros r Hr. simpl. right.
      split; [done|]. apply descendants_nonempty in Hr. by destruct r.
  - by apply IHcs.
Qed.

(** [Find] from a single node is the matching descendants, in document
    order. *)
Lemma Find_singleton (doc : Node) (sel : Sel) (p : path) :
  Find doc sel [p] =
  match nodeAt doc p with
  | Some n => filter (fun q => Is_true (Match sel doc q)) (map (app p) (descendants n))
  | None => []
  end.
Proof.
  unfold Find. apply mapNodes_singleton.
  destruct (nodeAt doc p) as [n|]; [|apply NoDup_nil_2].
  apply StronglySorted_before_NoDup, StronglySorted_filter.
  apply (StronglySorted_map before); [|apply descendants_sorted].
  intros x y. apply before_app.
Qed.

Lemma Find_sorted (doc : Node) (sel : Sel) (s : Selection) :
  length s <= 1 -> StronglySorted before (Find doc sel s).
Proof.
  intros Hs. destruct s as [|p [|p' s]]; [constructor| |simpl in Hs; lia].
  rewrite Find_singleton. destruct (nodeAt doc p) as [n|]; [|constructor].
  apply StronglySorted_filter.
  apply (StronglySorted_map before); [|apply descendants_sorted].
  intros x y. apply before_app.
Qed.

(** ** What [Find] selects *)

Lemma nodeAt_app (doc : Node) (p r : path) :
  nodeAt doc (p ++ r) =
  match nodeAt doc p with
  | Some n => nodeAt n r
  | None => None
  end.
Proof.
  revert doc. induction p as [|i p IH]; intros doc; [done|].
  cbn [app nodeAt]. destruct (children doc !! i) as [c|]; [apply IH|done].
Qed.

Lemma descendantsFrom_lookup (cs : list Node) :
  forall i j c,
    cs !! j = Some c ->
    [i + j] ∈ descendantsFrom i cs /\
    (forall r, r ∈ descendants c -> (i + j) :: r ∈ descendantsFrom i cs).
Proof.
  induction cs as [|c0 cs IH]; intros i j c Hj; [done|].
  cbn [descendantsFrom]. destruct j as [|j].
  - injection Hj as ->. rewrite Nat.add_0_r. split.
    + apply elem_of_app. left. left.
    + intros r Hr. apply elem_of_app. left. right.
      by apply list_elem_of_fmap_2.
  - cbn [lookup list_lookup] in Hj.
    destruct (IH (S i) j c Hj) as [H1 H2].
    replace (i + S j) with (S i + j) by lia. split.
    + apply elem_of_app. by right.
    + intros r Hr. apply elem_of_app. right. by apply H2.
Qed.

(** Every position strictly below a node is among its descendants. *)
Lemma elem_of_descendants (r : path) :
  forall n, r <> [] -> is_Some (nodeAt n r) -> r ∈ descendants n.
Proof.
  induction r as [|i r IH]; intros n Hne Hsome; [done|].
  cbn [nodeAt] in Hsome. rewrite descendants_children.
  destruct (children n !! i) as [c|] eqn:Hc; [|by destruct Hsome].
  destruct (descendantsFrom_lookup (children n) 0 i c Hc) as [H1 H2].
  cbn [Nat.add] in H1, H2.
  destruct r as [|i' r']; [done|]. apply H2, IH; done.
Qed.

(** A selector matches nodes of the document only. *)
Lemma Match_node (sel : Sel) (doc : Node) (q : path) :
  Match sel doc q = true -> is_Some (nodeAt doc q).
Proof.
  assert (Hnode : forall f, cascadia.matchNode f doc q = true ->
                            is_Some (nodeAt doc q)).
  { intros f. unfold cascadia.matchNode. by destruct (nodeAt doc q). }
  induction sel as [tag|id|class|key val|key val|a IHa b IHb
                    |anc IHanc s' IHs|a IHa b IHb]; cbn [Match];
    try apply Hnode.
  - intros H. apply andb_true_iff in H as [H _]. by apply IHa.
  - intros H. apply andb_true_iff in H as [H _]. by apply IHs.
  - intros H. apply orb_true_iff in H as [H|H]; [by apply IHa|by apply IHb].
Qed.

(** [Find] from one node selects the nodes strictly below it that the
    selector matches. *)
Lemma elem_of_Find_singleton (doc : Node) (sel : Sel) (p q : path) :
  q ∈ Find doc sel [p] <-> below p q /\ Match sel doc q = true.
Proof.
  rewrite Find_singleton. split.
  - destruct (nodeAt doc p) as [n|]; [|by intros H; apply elem_of_nil in H].
    intros H. apply list_elem_of_filter in H as [Hm H].
    apply list_elem_of_fmap in H as (r & -> & Hr).
    split; [|by apply Is_true_true].
    exists r. split; [by apply descendants_nonempty in Hr|done].
  - intros [(r & Hne & ->) Hm].
    pose proof (Match_node sel doc (p ++ r) Hm) as Hsome.
    rewrite nodeAt_app in Hsome.
    destruct (nodeAt doc p) as [n|]; [|by destruct Hsome].
    apply list_elem_of_filter. split; [by apply Is_true_true|].
    apply list_elem_of_fmap_2. by apply elem_of_descendants.
Qed.

Lemma matchAttribute_class (n : Node) (class : string) :
  cascadia.matchAttribute n "class" (cascadia.matchInclude class) = true <->
  hasClass n class.
Proof.
  unfold cascadia.matchAttribute, cascadia.matchInclude, hasClass.
  rewrite andb_true_iff, bool_decide_eq_true, existsb_exists.
  split.
  - intros [Ht (a & Ha & Hm)]. apply andb_true_iff in Hm as [Hk Hv].
    split; [done|]. exists a. apply String.eqb_eq in Hk.
    apply bool_decide_eq_true in Hv. by rewrite list_elem_of_In.
  - intros [Ht (a & Ha & Hk & Hv)]. split; [done|]. exists a.
    split; [by apply list_elem_of_In|]. apply andb_true_iff.
    split; [by apply String.eqb_eq|by apply bool_decide_eq_true].
Qed.

Lemma Match_infobox (doc : Node) (q : path) :
  Match sel_infobox doc q = true <->
  exists n, nodeAt doc q = Some n /\ hasClass n "infobox".
Proof.
  unfold sel_infobox. cbn [Match]. unfold cascadia.matchNode.
  destruct (nodeAt doc q) as [n|].
  - rewrite matchAttribute_class. split; [by exists n|].
    by intros (n' & [= <-] & H).
  - split; [done|]. by intros (n' & [=] & _).
Qed.

Lemma Match_wikitable (doc : Node) (q : path) :
  Match sel_wikitable doc q = true <->
  exists n, nodeAt doc q = Some n /\ Data n = "table" /\ hasClass n "wikitable".
Proof.
  unfold sel_wikitable. cbn [Match]. unfold cascadia.matchNode.
  destruct (nodeAt doc q) as [n|].
  - rewrite andb_true_iff, matchAttribute_class, andb_true_iff,
      bool_decide_eq_true, String.eqb_eq.
    split.
    + intros [[_ Hd] Hc]. by exists n.
    + intros (n' & [= <-] & Hd & Hc). split; [|done]. split; [|done].
      by destruct Hc.
  - split; [done|]. by intros (n' & [=] & _).
Qed.

Lemma Match_td_th (doc : Node) (q : path) :
  Match sel_td_th doc q = true <->
  exists n, nodeAt doc q = Some n /\ isCell n = true.
Proof.
  unfold sel_td_th, isCell. cbn [Match]. unfold cascadia.matchNode.
  destruct (nodeAt doc q) as [n|].
  - rewrite <- andb_orb_distrib_r. split; [by exists n|].
    by intros (n' & [= <-] & H).
  - split; [done|]. by intros (n' & [=] & _).
Qed.

Lemma emits_cases (quads : list Quad) (b : bool) (q : Quad) (P : Prop)
      (row : list Quad) :
  row = (if b then quads ++ [q] else quads) ->
  (b = true <-> P) ->
  ((exists q', row = quads ++ [q']) <-> P) /\
  (forall q', row = quads ++ [q'] -> q' = q) /\
  (~ P -> row = quads).
Proof.
  intros -> HP. destruct b.
  - repeat split.
    + intros _. by apply HP.
    + intros _. by exists q.
    + intros q' Hq'. by apply app_inj_tail in Hq' as [_ <-].
    + intros HnP. exfalso. apply HnP. by apply HP.
  - repeat split.
    + intros [q' Hq']. by apply snoc_neq in Hq'.
    + intros HP'. apply HP in HP'. done.
    + intros q' Hq'. by apply snoc_neq in Hq'.
Qed.

Lemma TrimSpace_not_blank (s : string) :
  GoStrings.TrimSpace s <> "" <-> blank s = false.
Proof.
  rewrite TrimSpace_blank. destruct (blank s); split; congruence.
Qed.

(** C4.  A row that the info-panel variant does not skip as a header,
    and any row of the table variant, adds an assertion exactly when its
    label and its value are both non-empty after trimming, that is, when
    neither text is made of white space only; the assertion carries the
    two texts without the white space at their ends; otherwise (an empty
    or white-space-only label or value) the row leaves the assertions
    collected so far as they are. *)
Theorem row_emits_iff_label_and_value_nonempty
        (doc : Node) (subject : string) (references : gmap string string)
        (s : Selection) (quads : list Quad) :
  (isHeaderRow doc s = false ->
   (emits (infoboxRow doc subject references s) quads <->
      infoboxLabel doc s <> "" /\ infoboxValue doc s <> "") /\
   (forall q, infoboxRow doc subject references s quads = quads ++ [q] ->
      Relationship q = infoboxLabel doc s /\ Value q = infoboxValue doc s) /\
   (~ (infoboxLabel doc s <> "" /\ infoboxValue doc s <> "") ->
      infoboxRow doc subject references s quads = quads) /\
   (emits (infoboxRow doc subject references s) quads <->
      blank (Text doc (Find doc sel_th s)) = false /\
      blank (Text doc (Find doc sel_td s)) = false) /\
   (forall q, infoboxRow doc subject references s quads = quads ++ [q] ->
      trimOf (Text doc (Find doc sel_th s)) (Relationship q) /\
      trimOf (Text doc (Find doc sel_td s)) (Value q)) /\
   (blank (Text doc (Find doc sel_th s)) = true \/
    blank (Text doc (Find doc sel_td s)) = true ->
      infoboxRow doc subject references s quads = quads)) /\
  (emits (tableRow doc subject references s) quads <->
     tableLabel doc s <> "" /\ tableValue doc s <> "") /\
  (forall q, tableRow doc subject references s quads = quads ++ [q] ->
     Relationship q = tableLabel doc s /\ Value q = tableValue doc s) /\
  (~ (tableLabel doc s <> "" /\ tableValue doc s <> "") ->
     tableRow doc subject references s quads = quads) /\
  (emits (tableRow doc subject references s) quads <->
     blank (Text doc (Eq (Find doc sel_td_th s) 0)) = false /\
     blank (Text doc (Eq (Find doc sel_td_th s) 1)) = false) /\
  (forall q, tableRow doc subject references s quads = quads ++ [q] ->
     trimOf (Text doc (Eq (Find doc sel_td_th s) 0)) (Relationship q) /\
     trimOf (Text doc (Eq (Find doc sel_td_th s) 1)) (Value q)) /\
  (blank (Text doc (Eq (Find doc sel_td_th s) 0)) = true \/
   blank (Text doc (Eq (Find doc sel_td_th s) 1)) = true ->
     tableRow doc subject references s quads = quads).
Proof.
  split; [intros Hrow|]; unfold emits.
  - destruct (emits_cases quads
                (nonEmpty (infoboxLabel doc s) && nonEmpty (infoboxValue doc s))
                (mkQuad subject (infoboxLabel doc s) (infoboxValue doc s)
                   (extractCitations doc (Find doc sel_td s) references))
                (infoboxLabel doc s <> "" /\ infoboxValue doc s <> "")
                (infoboxRow doc subject references s quads))
      as (Hiff & Hq & Hdrop).
    + by rewrite infoboxRow_cases, Hrow.
    + apply nonEmpty_both.
    + split; [exact Hiff|]. split; [|split; [exact Hdrop|split; [|split]]].
      * intros q Hrowq. by rewrite (Hq q Hrowq).
      * rewrite Hiff. unfold infoboxLabel, infoboxValue.
        by rewrite !TrimSpace_not_blank.
      * intros q Hrowq. rewrite (Hq q Hrowq). cbn [Relationship Value].
        split; apply TrimSpace_trimOf.
      * intros Hblank. apply Hdrop. unfold infoboxLabel, infoboxValue.
        rewrite !TrimSpace_not_blank. intros [Hl Hv].
        destruct Hblank; congruence.
  - destruct (emits_cases quads
                (nonEmpty (tableLabel doc s) && nonEmpty (tableValue doc s))
                (mkQuad subject (tableLabel doc s) (tableValue doc s)
                   (extractCitations doc (Eq (Find doc sel_td_th s) 1) references))
                (tableLabel doc s <> "" /\ tableValue doc s <> "")
                (tableRow doc subject references s quads))
      as (Hiff & Hq & Hdrop).
    + by rewrite tableRow_cases.
    + apply nonEmpty_both.
    + split; [exact Hiff|]. split; [|split; [exact Hdrop|split; [|split]]].
      * intros q Hrowq. by rewrite (Hq q Hrowq).
      * rewrite Hiff. unfold tableLabel, tableValue.
        by rewrite !TrimSpace_not_blank.
      * intros q Hrowq. rewrite (Hq q Hrowq). cbn [Relationship Value].
        split; apply TrimSpace_trimOf.
      * intros Hblank. apply Hdrop. unfold tableLabel, tableValue.
        rewrite !TrimSpace_not_blank. intros [Hl Hv].
        destruct Hblank; congruence.
Qed.

(** In the sample panel the row ["Designed by"], whose value has a space
    in front, is kept with the value trimmed; the row ["Paradigm"], whose
    value is two spaces, is dropped.  In the padded table the row
    ["Born"], whose second cell is a space, a no-break space and a line
    feed, is dropped. *)
Lemma row_emits_iff_label_and_value_nonempty_witness :
  (exists q,
     infoboxRow Samples.page "Example Language" Samples.index
                [Samples.designed_by_row] [] = [q] /\
     Relationship q = "Designed by" /\ Value q = "Robert X[1]see") /\
  infoboxRow Samples.page "Example Language" Samples.index
             [Samples.paradigm_row] [] = [] /\
  tableRow (Samples.padded_page "C") "Ada" ∅ [Samples.born_row] [] = [].
Proof.
  split; [|split].
  - destruct (row_emits_iff_label_and_value_nonempty
                Samples.page "Example Language" Samples.index
                [Samples.designed_by_row] []) as [Hpanel _].
    destruct (Hpanel eq_refl) as (_ & Hq & _ & Hiff & _).
    destruct (proj2 Hiff) as [q Hrow]; [split; vm_compute; reflexivity|].
    exists q. split; [exact Hrow|].
    destruct (Hq q Hrow) as [-> ->]. split; vm_compute; reflexivity.
  - destruct (row_emits_iff_label_and_value_nonempty
                Samples.page "Example Language" Samples.index
                [Samples.paradigm_row] []) as [Hpanel _].
    destruct (Hpanel eq_refl) as (_ & _ & _ & _ & _ & Hdrop).
    apply Hdrop. right. vm_compute. reflexivity.
  - destruct (row_emits_iff_label_and_value_nonempty
                (Samples.padded_page "C") "Ada" ∅
                [Samples.born_row] []) as (_ & _ & _ & _ & _ & _ & Hdrop).
    apply Hdrop. right. vm_compute. reflexivity.
Defined.

(** C6, as the code has it.  The cells of a row are the [td] and [th]
    elements below it at any depth, in document order, those of a table
    nested in one of its cells among them.  A row adds an assertion only
    if there are at least two; the label is the text of the first without
    the white space at its ends, the value that of the second, the
    citation is resolved in the second.  Nothing else of the row plays a
    part: two rows, of one document or of two, whose first two cells have
    the same texts and the same resolved markers in the second give the
    same result, so a third cell A, B, C that is not nested in the first
    two can hold anything. *)
Theorem tableRow_first_two_cells
        (doc : Node) (subject : string) (references : gmap string string)
        (s : Selection) (quads : list Quad) :
  (emits (tableRow doc subject references s) quads ->
     2 <= Length (Find doc sel_td_th s)) /\
  (Length (Find doc sel_td_th s) < 2 ->
     tableRow doc subject references s quads = quads) /\
  (forall c0 c1 rest,
     Find doc sel_td_th s = c0 :: c1 :: rest ->
     let label := GoStrings.TrimSpace (textAt doc c0) in
     let value := GoStrings.TrimSpace (textAt doc c1) in
     tableRow doc subject references s quads =
     (if nonEmpty label && nonEmpty value
      then quads ++ [mkQuad subject label value
                            (extractCitations doc [c1] references)]
      else quads) /\
     trimOf (textAt doc c0) label /\ trimOf (textAt doc c1) value /\
     nonEmpty label && nonEmpty value =
     negb (blank (textAt doc c0)) && negb (blank (textAt doc c1))) /\
  (forall s',
     2 <= Length (Find doc sel_td_th s) ->
     take 2 (Find doc sel_td_th s') = take 2 (Find doc sel_td_th s) ->
     tableRow doc subject references s' quads =
     tableRow doc subject references s quads) /\
  (forall row,
     (forall q, q ∈ Find doc sel_td_th [row] <->
                below row q /\
                exists n, nodeAt doc q = Some n /\ isCell n = true) /\
     StronglySorted before (Find doc sel_td_th [row])) /\
  (forall doc' references' s' c0 c1 rest c0' c1' rest',
     Find doc sel_td_th s = c0 :: c1 :: rest ->
     Find doc' sel_td_th s' = c0' :: c1' :: rest' ->
     textAt doc' c0' = textAt doc c0 ->
     textAt doc' c1' = textAt doc c1 ->
     resolvedTargets doc' [c1'] references' =
     resolvedTargets doc [c1] references ->
     tableRow doc' subject references' s' quads =
     tableRow doc subject references s quads).
Proof.
  assert (Hshort : Length (Find doc sel_td_th s) < 2 ->
                   tableRow doc subject references s quads = quads).
  { intros Hlen. unfold tableRow.
    destruct (2 <=? Length (Find doc sel_td_th s)) eqn:E; [|done].
    apply Nat.leb_le in E. lia. }
  assert (Htwo : forall d refs s0 c0 c1 rest,
     Find d sel_td_th s0 = c0 :: c1 :: rest ->
     tableRow d subject refs s0 quads =
     if nonEmpty (GoStrings.TrimSpace (textAt d c0))
        && nonEmpty (GoStrings.TrimSpace (textAt d c1))
     then quads ++ [mkQuad subject (GoStrings.TrimSpace (textAt d c0))
                           (GoStrings.TrimSpace (textAt d c1))
                           (extractCitations d [c1] refs)]
     else quads).
  { intros d refs s0 c0 c1 rest Hcells. unfold tableRow.
    rewrite Hcells. unfold Length, Eq. cbn [length lookup list_lookup].
    cbn [Nat.leb]. by rewrite !Text_singleton. }
  split; [|split; [exact Hshort|split; [|split; [|split]]]].
  - intros [q Hq].
    destruct (decide (2 <= Length (Find doc sel_td_th s))) as [|Hlt]; [done|].
    rewrite Hshort in Hq by lia. by apply snoc_neq in Hq.
  - intros c0 c1 rest Hcells label value.
    split; [by apply (Htwo doc references s c0 c1 rest)|].
    split; [apply TrimSpace_trimOf|]. split; [apply TrimSpace_trimOf|].
    unfold label, value. by rewrite !nonEmpty_TrimSpace.
  - unfold Length. intros s' Hlen Htake.
    destruct (Find doc sel_td_th s) as [|c0 [|c1 rest]] eqn:Hs;
      [simpl in Hlen; lia|simpl in Hlen; lia|].
    destruct (Find doc sel_td_th s') as [|c0' [|c1' rest']] eqn:Hs';
      [discriminate Htake|discriminate Htake|].
    injection Htake as -> ->.
    by rewrite (Htwo doc references s' c0 c1 rest'),
               (Htwo doc references s c0 c1 rest).
  - intros row. split; [|by apply Find_sorted].
    intros q. by rewrite elem_of_Find_singleton, Match_td_th.
  - intros doc' references' s' c0 c1 rest c0' c1' rest' Hs Hs' Ht0 Ht1 Hm.
    rewrite (Htwo doc' references' s' c0' c1' rest' Hs'),
            (Htwo doc references s c0 c1 rest Hs).
    by rewrite !extractCitations_markers, Ht0, Ht1, Hm.
Qed.

(** The row [Name] of the padded table: the label and the value come
    without the white space around them, and another third cell gives the
    same assertion.  The row [A, B, C] of the sample table: label [A],
    value [B]. *)
Lemma tableRow_first_two_cells_witness :
  tableRow (Samples.padded_page "C") "Ada" ∅ [Samples.name_row] [] =
  [mkQuad "Ada" "Name" "Ada" "no citation"] /\
  tableRow (Samples.padded_page "CHANGED") "Ada" ∅ [Samples.name_row] [] =
  tableRow (Samples.padded_page "C") "Ada" ∅ [Samples.name_row] [] /\
  tableRow Samples.page "Example Language" Samples.index [Samples.abc_row] [] =
  [mkQuad "Example Language" "A" "B" "no citation"].
Proof.
  split; [|split].
  - destruct (tableRow_first_two_cells
                (Samples.padded_page "C") "Ada" ∅
                [Samples.name_row] []) as (_ & _ & Hcells & _).
    destruct (Hcells (Samples.name_row ++ [0]) (Samples.name_row ++ [1])
                     [Samples.name_row ++ [2]] eq_refl) as [-> _].
    vm_compute. reflexivity.
  - destruct (tableRow_first_two_cells
                (Samples.padded_page "C") "Ada" ∅
                [Samples.name_row] []) as (_ & _ & _ & _ & _ & Hother).
    apply (Hother (Samples.padded_page "CHANGED") ∅ [Samples.name_row]
                  (Samples.name_row ++ [0]) (Samples.name_row ++ [1])
                  [Samples.name_row ++ [2]]
                  (Samples.name_row ++ [0]) (Samples.name_row ++ [1])
                  [Samples.name_row ++ [2]]); reflexivity.
  - destruct (tableRow_first_two_cells
                Samples.page "Example Language" Samples.index
                [Samples.abc_row] []) as (_ & _ & Hcells & _).
    destruct (Hcells (Samples.abc_row ++ [0]) (Samples.abc_row ++ [1])
                     [Samples.abc_row ++ [2]] eq_refl) as [-> _].
    reflexivity.
Defined.

(** C6, as stated, fails.  Read with the cells of a row as the [td] and
    [th] elements the row has as children, it says that a row that adds
    an assertion has two of them, the first giving the label and the
    second the value.  The only row of the outer table of the nested page
    has one cell of its own, and adds an assertion: its label is the text
    of that cell, the text of the table inside it included, and its value
    the text of the first cell of the table inside. *)
Lemma tableRow_own_cells_counterexample :
  ~ (forall (doc : Node) (subject : string) (references : gmap string string)
            (row : path) (quads : list Quad) (q : Quad),
        tableRow doc subject references [row] quads = quads ++ [q] ->
        exists c0 c1 rest,
          ownCells doc row = c0 :: c1 :: rest /\
          Relationship q = GoStrings.TrimSpace (textAt doc c0) /\
          Value q = GoStrings.TrimSpace (textAt doc c1)).
Proof.
  intros Hclaim.
  destruct (Hclaim Samples.nested_page "" ∅ Samples.outer_row []
                   (mkQuad "" "Outerin1in2" "in1" "no citation") eq_refl)
    as (c0 & c1 & rest & Hcells & _).
  vm_compute in Hcells. discriminate Hcells.
Qed.

Example nested_row_cells :
  ownCells Samples.nested_page Samples.outer_row
  = [Samples.outer_row ++ [0]] /\
  Find Samples.nested_page sel_td_th [Samples.outer_row]
  = [ Samples.outer_row ++ [0];
      Samples.outer_row ++ [0; 1; 0; 0; 0];
      Samples.outer_row ++ [0; 1; 0; 0; 1] ] /\
  tableRow Samples.nested_page "" ∅ [Samples.outer_row] []
  = [mkQuad "" "Outerin1in2" "in1" "no citation"].
Proof. repeat split; reflexivity. Qed.

(** A row with two cells of its own, the first holding a table: the
    value is the text of the first cell of the table inside, not of the
    second cell of the row. *)
Example nested_cell_taken_for_second :
  let doc :=
    document
      [ elem "table" [("class", "wikitable")]
          [ elem "tr" []
              [ elem "td" []
                  [ text "Outer";
                    elem "table" []
                      [ elem "tr" [] [ elem "td" [] [text "in1"] ] ] ];
                elem "td" [] [text "Second"] ] ] ] in
  map (textAt doc) (ownCells doc [0; 0]) = ["Outerin1"; "Second"] /\
  tableRow doc "" ∅ [[0; 0]] [] = [mkQuad "" "Outerin1" "in1" "no citation"].
Proof. split; reflexivity. Qed.

(** ** The callback and the whole extraction *)

Section page.
Variable doc : Node.

(** What the callback appends for one [body]: the assertions of the
    info panels, panel after panel, then those of the tables. *)
Lemma onBody_regions (h : Selection) (quads : list Quad) :
  onBody doc h quads =
  quads
  ++ flat_map (fun r => parseInfobox doc [r] (pageTitle doc h)
                                     (extractReferences doc h))
              (Find doc sel_infobox h)
  ++ flat_map (fun r => parseTable doc [r] (pageTitle doc h)
                                   (extractReferences doc h))
              (Find doc sel_wikitable h).
Proof.
  unfold onBody.
  rewrite (Each_append (fun s => parseTable doc s (pageTitle doc h)
                                            (extractReferences doc h))).
  rewrite (Each_append (fun s => parseInfobox doc s (pageTitle doc h)
                                              (extractReferences doc h))).
  by rewrite <- app_assoc.
Qed.

Lemma runCallback_bodies (quads : list Quad) :
  runCallback doc quads =
  quads ++ flat_map (fun b => onBody doc [b] []) (bodies doc).
Proof.
  unfold runCallback, bodies.
  apply (Each_step_append (onBody doc) (fun h => onBody doc h [])).
  intros h acc. by rewrite !onBody_regions.
Qed.

Lemma extract_bodies :
  extract doc = flat_map (fun b => onBody doc [b] []) (bodies doc).
Proof. unfold extract. by rewrite runCallback_bodies. Qed.

(** Every assertion of a region has the subject the region was parsed
    with. *)
Lemma parseInfobox_subject (infobox : Selection) (subject : string)
      (references : gmap string string) (q : Quad) :
  q ∈ parseInfobox doc infobox subject references -> Subject q = subject.
Proof.
  rewrite parseInfobox_rows, list_elem_of_In, in_flat_map.
  intros (r & _ & Hq). apply list_elem_of_In in Hq.
  rewrite infoboxRow_cases in Hq.
  destruct (isHeaderRow doc [r]); [by apply elem_of_nil in Hq|].
  destruct (nonEmpty _ && nonEmpty _); [|by apply elem_of_nil in Hq].
  by apply list_elem_of_singleton in Hq as ->.
Qed.

Lemma parseTable_subject (table : Selection) (subject : string)
      (references : gmap string string) (q : Quad) :
  q ∈ parseTable doc table subject references -> Subject q = subject.
Proof.
  rewrite parseTable_rows, list_elem_of_In, in_flat_map.
  intros (r & _ & Hq). apply list_elem_of_In in Hq.
  rewrite tableRow_cases in Hq.
  destruct (nonEmpty _ && nonEmpty _); [|by apply elem_of_nil in Hq].
  by apply list_elem_of_singleton in Hq as ->.
Qed.

Lemma onBody_subject (b : path) (q : Quad) :
  q ∈ onBody doc [b] [] -> Subject q = pageTitle doc [b].
Proof.
  rewrite onBody_regions. cbn [app]. rewrite elem_of_app.
  rewrite !list_elem_of_In, !in_flat_map.
  intros [(r & _ & Hq)|(r & _ & Hq)]; apply list_elem_of_In in Hq.
  - by apply parseInfobox_subject in Hq.
  - by apply parseTable_subject in Hq.
Qed.

(** Every assertion of a page carries the subject computed for the
    [body] it comes from: the text of [h1#firstHeading] below that
    [body] and, when that is empty, the text of the [title] elements
    below that [body]. *)
Lemma extract_subject (q : Quad) :
  q ∈ extract doc ->
  exists b, b ∈ bodies doc /\ Subject q = pageTitle doc [b].
Proof.
  rewrite extract_bodies, list_elem_of_In, in_flat_map.
  intros (b & Hb & Hq). exists b.
  split; [by apply list_elem_of_In|].
  by apply onBody_subject, list_elem_of_In.
Qed.

Lemma bodies_at_most_one :
  length (bodies doc) <= 1 ->
  extract doc = onBody doc (bodies doc) [].
Proof.
  rewrite extract_bodies. intros Hlen.
  destruct (bodies doc) as [|b [|b' bs]]; [done| |simpl in Hlen; lia].
  simpl. by rewrite app_nil_r.
Qed.

End page.

(** C5.  The subject of the assertions is computed from the [body] alone:
    the text of [h1#firstHeading] and, failing that, of a [title] element
    found below the [body].  The title of the document, which the parser
    puts in the [head], is never read: the sample page without a heading
    has a title, and its assertion has the empty subject. *)
Theorem subject_misses_document_title :
  Text Samples.page_without_heading
       (Find Samples.page_without_heading sel_title [[]])
  = "Example Language - Wikipedia" /\
  Find Samples.page_without_heading sel_firstHeading [[]] = [] /\
  extract Samples.page_without_heading =
  [mkQuad "" "Designed by" "Robert X" "no citation"].
Proof. repeat split; reflexivity. Qed.

(** C7.  The sequence returned for a page is the assertions of its info
    panels followed by those of its tables; the panels and the tables are
    taken in document order, and within a region the rows are taken in
    document order.  The panels are the elements below the [body] with
    the class [infobox], the tables the [table] elements below it with
    the class [wikitable], the rows of a region the [tr] elements below
    it, all of them and each once.  (The callback runs once per [body]
    element; a parsed page has at most one.) *)
Theorem extract_panels_then_tables_in_document_order (doc : Node) :
  extract doc =
    flat_map (fun b =>
      flat_map (fun r => parseInfobox doc [r] (pageTitle doc [b])
                                      (extractReferences doc [b]))
               (Find doc sel_infobox [b])
      ++ flat_map (fun r => parseTable doc [r] (pageTitle doc [b])
                                       (extractReferences doc [b]))
                  (Find doc sel_wikitable [b]))
      (bodies doc) /\
  (length (bodies doc) <= 1 ->
   let subject := pageTitle doc (bodies doc) in
   let references := extractReferences doc (bodies doc) in
   extract doc =
     flat_map (fun r => parseInfobox doc [r] subject references)
              (Find doc sel_infobox (bodies doc))
     ++ flat_map (fun r => parseTable doc [r] subject references)
                 (Find doc sel_wikitable (bodies doc))) /\
  (forall s, length s <= 1 ->
     StronglySorted before (Find doc sel_infobox s) /\
     StronglySorted before (Find doc sel_wikitable s)) /\
  (forall r subject references,
     parseInfobox doc [r] subject references =
       flat_map (fun row => infoboxRow doc subject references [row] [])
                (Find doc sel_tr [r]) /\
     parseTable doc [r] subject references =
       flat_map (fun row => tableRow doc subject references [row] [])
                (Find doc sel_tr [r]) /\
     StronglySorted before (Find doc sel_tr [r])) /\
  (forall b r,
     (r ∈ Find doc sel_infobox [b] <->
        below b r /\
        exists n, nodeAt doc r = Some n /\ hasClass n "infobox") /\
     (r ∈ Find doc sel_wikitable [b] <->
        below b r /\
        exists n, nodeAt doc r = Some n /\ Data n = "table" /\
                  hasClass n "wikitable") /\
     NoDup (Find doc sel_infobox [b]) /\ NoDup (Find doc sel_wikitable [b])) /\
  (forall r row,
     (row ∈ Find doc sel_tr [r] <->
        below r row /\
        exists n, nodeAt doc row = Some n /\ Type_ n = ElementNode /\
                  Data n = "tr") /\
     NoDup (Find doc sel_tr [r])).
Proof.
  split; [|split; [|split; [|split; [|split]]]].
  - rewrite extract_bodies. apply flat_map_ext. intros b.
    by rewrite onBody_regions.
  - intros Hone subject references.
    rewrite bodies_at_most_one by done. by rewrite onBody_regions.
  - intros s Hs. split; by apply Find_sorted.
  - intros r subject references. split; [apply parseInfobox_rows|].
    split; [apply parseTable_rows|]. by apply Find_sorted.
  - intros b r.
    split; [by rewrite elem_of_Find_singleton, Match_infobox|].
    split; [by rewrite elem_of_Find_singleton, Match_wikitable|].
    split; by apply StronglySorted_before_NoDup, Find_sorted.
  - intros r row. split; [|by apply StronglySorted_before_NoDup, Find_sorted].
    rewrite elem_of_Find_singleton. unfold sel_tr. cbn [Match].
    unfold cascadia.matchNode.
    destruct (nodeAt doc row) as [n|].
    + rewrite andb_true_iff, bool_decide_eq_true, String.eqb_eq.
      split.
      * intros (Hb & Ht & Hd). split; [done|]. by exists n.
      * intros (Hb & n' & [= <-] & Ht & Hd). done.
    + split; [by intros [_ ?]|]. by intros (_ & n' & [=] & _).
Qed.

(** The mixed page, where a table comes before the first info panel: the
    rows of the two panels come first, then the rows of the two tables,
    each group in document order.  The sample page: the row of the
    panel, then the row of the table. *)
Lemma extract_panels_then_tables_in_document_order_witness :
  extract Samples.mixed_page =
  [ mkQuad "Mixed" "P1" "first panel" "no citation";
    mkQuad "Mixed" "P2" "second panel" "no citation";
    mkQuad "Mixed" "T1" "first table" "no citation";
    mkQuad "Mixed" "T2" "second table" "no citation";
    mkQuad "Mixed" "T3" "its second row" "no citation" ] /\
  extract Samples.page =
  [ mkQuad "Example Language" "Designed by" "Robert X[1]see"
           "https://archive.org/bio";
    mkQuad "Example Language" "A" "B" "no citation" ].
Proof.
  split.
  - destruct (extract_panels_then_tables_in_document_order Samples.mixed_page)
      as (_ & Hextract & _).
    rewrite Hextract; [|vm_compute; lia]. vm_compute. reflexivity.
  - destruct (extract_panels_then_tables_in_document_order Samples.page)
      as (_ & Hextract & _).
    rewrite Hextract; [|vm_compute; lia]. vm_compute. reflexivity.
Defined.

(** ** The collector *)

Section collector_facts.
Variable normalize : string -> string.
Variable fetch : string -> Response.

Lemma handleOnHTML_snoc (doc : Node) (callbacks : list nat) (k : nat)
      (fr : list (list Quad)) :
  handleOnHTML doc (callbacks ++ [k]) fr =
  alter (runCallback doc) k (handleOnHTML doc callbacks fr).
Proof. unfold handleOnHTML. by rewrite foldl_app. Qed.

Lemma handleOnHTML_length (doc : Node) (callbacks : list nat) :
  forall fr, length (handleOnHTML doc callbacks fr) = length fr.
Proof.
  induction callbacks as [|k callbacks IH]; intros fr; [done|].
  unfold handleOnHTML in *. cbn [foldl]. by rewrite IH, length_alter.
Qed.

(** A callback leaves the variables of the other activations alone. *)
Lemma handleOnHTML_other (doc : Node) (callbacks : list nat) (k : nat) :
  forall fr, k ∉ callbacks -> handleOnHTML doc callbacks fr !! k = fr !! k.
Proof.
  induction callbacks as [|k' callbacks IH]; intros fr Hk; [done|].
  apply not_elem_of_cons in Hk as [Hne Hk].
  unfold handleOnHTML in *. cbn [foldl]. rewrite IH by done.
  by apply list_lookup_alter_ne.
Qed.

(** The activation that registers last reads back what one run of the
    callback over the page gives, whatever the older callbacks did. *)
Lemma handleOnHTML_new_frame (doc : Node) (callbacks : list nat)
      (fr : list (list Quad)) :
  (forall k, k ∈ callbacks -> k < length fr) ->
  handleOnHTML doc (callbacks ++ [length fr]) (fr ++ [[]]) !! length fr =
  Some (extract doc).
Proof.
  intros Hin. rewrite handleOnHTML_snoc, list_lookup_alter_eq.
  rewrite handleOnHTML_other.
  - by rewrite list_lookup_middle.
  - intros Hk. apply Hin in Hk. lia.
Qed.


(** On a URL the collector has not visited, [ExtractFromURL] returns
    the extraction of the page served there, records the visit and
    keeps the callbacks within the frames. *)
Lemma ExtractFromURL_unvisited (e : Extractor) (url : string) (doc : Node) :
  callbacks_in_frames e -> normalize url ∉ visited e -> fetch url = Page doc ->
  (ExtractFromURL normalize fetch e url).2 = inl (extract doc) /\
  callbacks_in_frames (ExtractFromURL normalize fetch e url).1 /\
  visited (ExtractFromURL normalize fetch e url).1 =
  {[normalize url]} ∪ visited e.
Proof.
  intros Hcb Hv Hpage. unfold ExtractFromURL, Visit. cbn [visited].
  rewrite decide_False by done. rewrite Hpage.
  cbn [visited htmlCallbacks frames fst snd].
  rewrite handleOnHTML_new_frame by done.
  split; [done|]. split; [|done].
  intros k Hk. cbn [htmlCallbacks frames] in *.
  rewrite handleOnHTML_length, length_app. simpl.
  apply elem_of_app in Hk as [Hk|Hk].
  - apply Hcb in Hk. lia.
  - apply list_elem_of_singleton in Hk. lia.
Qed.

End collector_facts.

Lemma callbacks_in_frames_new : callbacks_in_frames NewExtractor.
Proof. intros k Hk. by apply elem_of_nil in Hk. Qed.




(** ** Nothing fails inside the extraction *)

Lemma flat_map_nil_all {A B : Type} (f : A -> list B) (l : list A) :
  (forall x, x ∈ l -> f x = []) -> flat_map f l = [].
Proof.
  induction l as [|x l IH]; intros Hall; [done|].
  simpl. rewrite Hall by left. apply IH. intros y Hy. apply Hall. by right.
Qed.

Lemma extract_no_regions (doc : Node) :
  (forall b, b ∈ bodies doc ->
             Find doc sel_infobox [b] = [] /\ Find doc sel_wikitable [b] = []) ->
  extract doc = [].
Proof.
  intros Hnone. rewrite extract_bodies. apply flat_map_nil_all.
  intros b Hb. rewrite onBody_regions.
  destruct (Hnone b Hb) as [-> ->]. done.
Qed.

Lemma extractReferences_no_items (doc : Node) (d : Selection) :
  scannedItems doc d = [] -> extractReferences doc d = ∅.
Proof. intros Hnone. by rewrite extractReferences_writes, Hnone. Qed.

Lemma resolvedTargets_empty_index (doc : Node) (cell : Selection) :
  resolvedTargets doc cell ∅ = [].
Proof.
  unfold resolvedTargets. induction (markers doc cell) as [|h hs IH]; [done|].
  cbn [omap list_omap]. unfold resolveHref at 1.
  destruct (GoStrings.Contains h "#cite_note-"); by rewrite ?lookup_empty.
Qed.

(** C8.  Extraction of a page never fails.  A run on a page that was
    obtained returns a sequence, not an error; with no info panel and no
    table the sequence is empty.  The degenerate inputs give empty or
    sentinel values and the rest goes on: no heading and no title give
    the empty subject; no reference list gives the empty index, with
    which every citation is ["no citation"]; markers that do not resolve
    give ["no citation"]; a row with fewer than two cells is passed over
    and the rows around it are parsed; a region with no row gives no
    assertion. *)
Theorem extraction_never_fails
        (normalize : string -> string) (fetch : string -> Response)
        (url : string) (doc : Node) :
  fetch url = Page doc ->
  (ExtractFromURL normalize fetch NewExtractor url).2 = inl (extract doc) /\
  ((forall b, b ∈ bodies doc ->
              Find doc sel_infobox [b] = [] /\ Find doc sel_wikitable [b] = []) ->
   extract doc = []) /\
  (forall d, Find doc sel_firstHeading d = [] -> Find doc sel_title d = [] ->
             pageTitle doc d = "") /\
  (forall d, scannedItems doc d = [] -> extractReferences doc d = ∅) /\
  (forall cell, extractCitations doc cell ∅ = "no citation") /\
  (forall cell references,
      resolvedTargets doc cell references = [] ->
      extractCitations doc cell references = "no citation") /\
  (forall table subject references rows1 row rows2,
      Find doc sel_tr table = rows1 ++ row :: rows2 ->
      Length (Find doc sel_td_th [row]) < 2 ->
      parseTable doc table subject references =
      flat_map (fun r => tableRow doc subject references [r] []) rows1
      ++ flat_map (fun r => tableRow doc subject references [r] []) rows2) /\
  (forall region subject references,
      Find doc sel_tr region = [] ->
      parseInfobox doc region subject references = [] /\
      parseTable doc region subject references = []).
Proof.
  intros Hpage. split; [|split; [|split; [|split; [|split; [|split; [|split]]]]]].
  - apply ExtractFromURL_unvisited;
      [apply callbacks_in_frames_new|apply not_elem_of_empty|done].
  - apply extract_no_regions.
  - intros d Hh Ht. unfold pageTitle. by rewrite Hh, Ht.
  - apply extractReferences_no_items.
  - intros cell. by rewrite extractCitations_markers, resolvedTargets_empty_index.
  - intros cell references Hnone. by rewrite extractCitations_markers, Hnone.
  - intros table subject references rows1 row rows2 Hrows Hshort.
    rewrite parseTable_rows, Hrows, flat_map_app. cbn [flat_map].
    unfold tableRow at 2.
    destruct (2 <=? Length (Find doc sel_td_th [row])) eqn:E; [|done].
    apply Nat.leb_le in E. lia.
  - intros region subject references Hnone.
    by rewrite parseInfobox_rows, parseTable_rows, Hnone.
Qed.

(** The page with no table, served by the sample network. *)
Lemma extraction_never_fails_witness :
  (ExtractFromURL Samples.canonical Samples.web NewExtractor
                  Samples.plain_url).2 = inl [].
Proof.
  destruct (extraction_never_fails Samples.canonical Samples.web
              Samples.plain_url Samples.plain_page eq_refl)
    as (Hrun & Hempty & _).
  rewrite Hrun, Hempty; [reflexivity|].
  intros b Hb. apply list_elem_of_singleton in Hb as ->.
  split; reflexivity.
Defined.

(** ** The sample page, run *)

Example TrimSpace_no_break_space :
  GoStrings.TrimSpace
    (String (GoStrings.byte 194) (String (GoStrings.byte 160) " Robert X ")
     +:+ String (GoStrings.byte 226) (String (GoStrings.byte 128)
                   (String (GoStrings.byte 175) "")))
  = "Robert X".
Proof. reflexivity. Qed.

Example header_row_skipped :
  isHeaderRow Samples.page [Samples.panel_of_page ++ [0; 0]] = true.
Proof. reflexivity. Qed.

Example paradigm_row_dropped :
  infoboxLabel Samples.page [Samples.paradigm_row] = "Paradigm" /\
  infoboxValue Samples.page [Samples.paradigm_row] = "" /\
  infoboxRow Samples.page "Example Language" Samples.index
             [Samples.paradigm_row] [] = [].
Proof. repeat split; reflexivity. Qed.

Example alone_row_dropped :
  Length (Find Samples.page sel_td_th [Samples.alone_row]) = 1 /\
  tableRow Samples.page "Example Language" Samples.index
           [Samples.alone_row] [] = [].
Proof. split; reflexivity. Qed.

Example extract_sample_page :
  extract Samples.page =
  [ mkQuad "Example Language" "Designed by" "Robert X[1]see"
           "https://archive.org/bio";
    mkQuad "Example Language" "A" "B" "no citation" ].
Proof. vm_compute. reflexivity. Qed.

Example second_run_refused :
  (ExtractFromURL Samples.canonical Samples.web
     (ExtractFromURL Samples.canonical Samples.web NewExtractor
                     Samples.url).1 Samples.url).2
  = already_visited.
Proof. vm_compute. reflexivity. Qed.

Example other_spelling_refused :
  Samples.canonical Samples.shouted = Samples.url /\
  (ExtractFromURL Samples.canonical Samples.web
     (ExtractFromURL Samples.canonical Samples.web NewExtractor
                     Samples.url).1 Samples.shouted).2
  = already_visited.
Proof. split; vm_compute; reflexivity. Qed.

(* ===================================================================== *)
(** * Further properties of the extractor *)
(* ===================================================================== *)

(** ** Where the assertions of a page come from *)

Section provenance.
Variable doc : Node.
Variable subject : string.
Variable references : gmap string string.

Lemma infoboxRow_singleton (row : path) :
  infoboxRow doc subject references [row] [] =
  if negb (isHeaderRow doc [row]) &&
     (nonEmpty (infoboxLabel doc [row]) && nonEmpty (infoboxValue doc [row]))
  then [infoboxQuad doc subject references row] else [].
Proof.
  rewrite infoboxRow_cases. destruct (isHeaderRow doc [row]); [done|].
  simpl. by destruct (nonEmpty _ && nonEmpty _).
Qed.

Lemma tableRow_singleton (row : path) :
  tableRow doc subject references [row] [] =
  if nonEmpty (tableLabel doc [row]) && nonEmpty (tableValue doc [row])
  then [tableQuad doc subject references row] else [].
Proof. rewrite tableRow_cases. by destruct (nonEmpty _ && nonEmpty _). Qed.

Lemma elem_of_parseInfobox (region : Selection) (q : Quad) :
  q ∈ parseInfobox doc region subject references <->
  exists row, row ∈ Find doc sel_tr region /\
              isHeaderRow doc [row] = false /\
              infoboxLabel doc [row] <> "" /\ infoboxValue doc [row] <> "" /\
              q = infoboxQuad doc subject references row.
Proof.
  rewrite parseInfobox_rows, list_elem_of_In, in_flat_map.
  split.
  - intros (row & Hrow & Hq). exists row.
    apply list_elem_of_In in Hrow, Hq. rewrite infoboxRow_singleton in Hq.
    destruct (isHeaderRow doc [row]); [by apply elem_of_nil in Hq|].
    destruct (nonEmpty _ && nonEmpty _) eqn:Hne; [|by apply elem_of_nil in Hq].
    apply nonEmpty_both in Hne as [? ?].
    apply list_elem_of_singleton in Hq. done.
  - intros (row & Hrow & Hh & Hl & Hv & ->). exists row.
    split; [by apply list_elem_of_In|]. apply list_elem_of_In.
    rewrite infoboxRow_singleton, Hh.
    rewrite (proj2 (nonEmpty_both _ _)) by done. simpl. left.
Qed.

Lemma elem_of_parseTable (region : Selection) (q : Quad) :
  q ∈ parseTable doc region subject references <->
  exists row, row ∈ Find doc sel_tr region /\
              tableLabel doc [row] <> "" /\ tableValue doc [row] <> "" /\
              q = tableQuad doc subject references row.
Proof.
  rewrite parseTable_rows, list_elem_of_In, in_flat_map.
  split.
  - intros (row & Hrow & Hq). exists row.
    apply list_elem_of_In in Hrow, Hq. rewrite tableRow_singleton in Hq.
    destruct (nonEmpty _ && nonEmpty _) eqn:Hne; [|by apply elem_of_nil in Hq].
    apply nonEmpty_both in Hne as [? ?].
    apply list_elem_of_singleton in Hq. done.
  - intros (row & Hrow & Hl & Hv & ->). exists row.
    split; [by apply list_elem_of_In|]. apply list_elem_of_In.
    rewrite tableRow_singleton.
    rewrite (proj2 (nonEmpty_both _ _)) by done. left.
Qed.




End provenance.

Lemma elem_of_onBody (doc : Node) (b : path) (q : Quad) :
  q ∈ onBody doc [b] [] <-> fromInfobox doc b q \/ fromTable doc b q.
Proof.
  rewrite onBody_regions. cbn [app]. rewrite elem_of_app.
  rewrite !list_elem_of_In, !in_flat_map. unfold fromInfobox, fromTable.
  split.
  - intros [(region & Hr & Hq)|(region & Hr & Hq)];
      apply list_elem_of_In in Hr, Hq.
    + left. apply elem_of_parseInfobox in Hq as (row & ?). by exists region, row.
    + right. apply elem_of_parseTable in Hq as (row & ?). by exists region, row.
  - intros [(region & row & Hr & Hrow)|(region & row & Hr & Hrow)].
    + left. exists region. split; [by apply list_elem_of_In|].
      apply list_elem_of_In, elem_of_parseInfobox. by exists row.
    + right. exists region. split; [by apply list_elem_of_In|].
      apply list_elem_of_In, elem_of_parseTable. by exists row.
Qed.

(** X1.  The assertions returned for a page are exactly those of the rows
    of its info panels that are no header rows and of the rows of its
    tables, for the rows that have a label and a value: nothing else is
    returned and no such row is left out. *)
Theorem extract_exactly_the_rows (doc : Node) (q : Quad) :
  q ∈ extract doc <->
  exists b, b ∈ bodies doc /\ (fromInfobox doc b q \/ fromTable doc b q).
Proof.
  rewrite extract_bodies, list_elem_of_In, in_flat_map. split.
  - intros (b & Hb & Hq). exists b. apply list_elem_of_In in Hb, Hq.
    split; [done|]. by apply elem_of_onBody.
  - intros (b & Hb & Hq). exists b. split; [by apply list_elem_of_In|].
    by apply list_elem_of_In, elem_of_onBody.
Qed.

Lemma extract_exactly_the_rows_witness :
  exists b, b ∈ bodies Samples.page /\
    (fromInfobox Samples.page b
       (mkQuad "Example Language" "A" "B" "no citation") \/
     fromTable Samples.page b
       (mkQuad "Example Language" "A" "B" "no citation")).
Proof.
  apply (extract_exactly_the_rows Samples.page
           (mkQuad "Example Language" "A" "B" "no citation")).
  vm_compute. right. left.
Defined.

(** X2.  In every assertion returned for a page the relationship and the
    value are non-empty and have no white space left at either end. *)
Theorem extract_fields_nonempty_and_trimmed (doc : Node) (q : Quad) :
  q ∈ extract doc ->
  Relationship q <> "" /\ Value q <> "" /\
  trimmed (Relationship q) /\ trimmed (Value q).
Proof.
  intros Hq. rewrite extract_bodies, list_elem_of_In, in_flat_map in Hq.
  destruct Hq as (b & _ & Hq).
  apply list_elem_of_In, elem_of_onBody in Hq as [Hq|Hq].
  - destruct Hq as (region & row & _ & _ & _ & Hl & Hv & ->). simpl.
    repeat split; try done; apply TrimSpace_trimmed.
  - destruct Hq as (region & row & _ & _ & Hl & Hv & ->). simpl.
    repeat split; try done; apply TrimSpace_trimmed.
Qed.

Lemma extract_fields_nonempty_and_trimmed_witness :
  Relationship (mkQuad "Example Language" "A" "B" "no citation") <> "" /\
  Value (mkQuad "Example Language" "A" "B" "no citation") <> "" /\
  trimmed (Relationship (mkQuad "Example Language" "A" "B" "no citation")) /\
  trimmed (Value (mkQuad "Example Language" "A" "B" "no citation")).
Proof.
  apply (extract_fields_nonempty_and_trimmed Samples.page).
  vm_compute. right. left.
Defined.


(** X4.  On a page (at most one [body]) every assertion carries the same
    subject, the one computed for the page. *)
Theorem extract_one_subject (doc : Node) :
  length (bodies doc) <= 1 ->
  Forall (fun q => Subject q = pageTitle doc (bodies doc)) (extract doc).
Proof.
  intros Hone. apply Forall_forall. intros q Hq.
  apply extract_subject in Hq as (b & Hb & ->).
  destruct (bodies doc) as [|b' [|b'' bs]]; [by apply elem_of_nil in Hb| |simpl in Hone; lia].
  by apply list_elem_of_singleton in Hb as ->.
Qed.

Lemma extract_one_subject_witness :
  Forall (fun q => Subject q = "Example Language") (extract Samples.page).
Proof.
  apply (extract_one_subject Samples.page). vm_compute. lia.
Defined.

(** ** What the reference index holds *)

Lemma filter_itemWrites_key (doc : Node) (li : path) (id : string) :
  filter (fun w : string * string => w.1 = id) (itemWrites doc li) <> [] ->
  Attr doc [li] "id" = Some id /\
  filter (fun w : string * string => w.1 = id) (itemWrites doc li)
  = map (pair id) (itemLinks doc li).
Proof.
  intros Hne.
  destruct (decide (Attr doc [li] "id" = Some id)) as [Hid|Hid].
  - split; [done|]. by apply filter_itemWrites_same.
  - exfalso. apply Hne. apply filter_itemWrites_other. by intros ?.
Qed.

(** The last assignment to [id] among the items is the last external
    link of one of them. *)
Lemma last_write_item (doc : Node) (items : list path) (id : string)
      (w : string * string) :
  last (filter (fun w : string * string => w.1 = id)
               (flat_map (itemWrites doc) items)) = Some w ->
  exists li, li ∈ items /\ Attr doc [li] "id" = Some id /\
             last (itemLinks doc li) = Some w.2.
Proof.
  induction items as [|li items IH] using rev_ind; [done|].
  rewrite flat_map_app. cbn [flat_map]. rewrite app_nil_r, filter_app, last_app.
  destruct (last (filter _ (itemWrites doc li))) as [w'|] eqn:Hlast.
  - intros [= ->]. exists li. split; [apply elem_of_app; right; left|].
    assert (Hne : filter (fun w : string * string => w.1 = id)
                         (itemWrites doc li) <> []).
    { intros Hnil. by rewrite Hnil in Hlast. }
    apply filter_itemWrites_key in Hne as [Hid Heq]. split; [done|].
    rewrite Heq, fmap_last in Hlast.
    destruct (last (itemLinks doc li)) as [h|]; [|done].
    by injection Hlast as <-.
  - intros Hw. apply IH in Hw as (li' & Hli' & ?). exists li'.
    split; [apply elem_of_app; by left|done].
Qed.

Lemma last_filter_None {A : Type} (P : A -> Prop)
      `{!forall x, Decision (P x)} (l : list A) :
  last (filter P l) = None <-> forall x, x ∈ l -> ~ P x.
Proof.
  rewrite last_None. split.
  - intros Hnil x Hx HP.
    assert (Hin : x ∈ filter P l) by (by apply list_elem_of_filter).
    rewrite Hnil in Hin. by apply elem_of_nil in Hin.
  - apply filter_False_nil.
Qed.

(** X5.  The reference index has an entry for an identifier exactly when
    some scanned list item with that identifier has an external link (an
    item without one gives no entry), and an entry is always the last
    external link of a scanned item with that identifier. *)
Theorem extractReferences_entries (doc : Node) (d : Selection) (id : string) :
  (extractReferences doc d !! id = None <->
     forall li, li ∈ scannedItems doc d -> Attr doc [li] "id" = Some id ->
                itemLinks doc li = []) /\
  (forall h, extractReferences doc d !! id = Some h ->
     exists li, li ∈ scannedItems doc d /\ Attr doc [li] "id" = Some id /\
                last (itemLinks doc li) = Some h).
Proof.
  rewrite extractReferences_writes, lookup_foldl_assign. split.
  - destruct (last _) as [w|] eqn:Hlast.
    + split; [done|]. intros Hnone. exfalso.
      apply last_write_item in Hlast as (li & Hli & Hid & Hl).
      by rewrite (Hnone li Hli Hid) in Hl.
    + rewrite lookup_empty. split; [|done]. intros _ li Hli Hid.
      pose proof (proj1 (last_filter_None _ _) Hlast) as Hno.
      clear Hlast. rename Hno into Hlast.
      destruct (itemLinks doc li) as [|h hs] eqn:Hlinks; [done|].
      exfalso. apply (Hlast (id, h)); [|done].
      apply list_elem_of_In, in_flat_map. exists li.
      split; [by apply list_elem_of_In|]. apply list_elem_of_In.
      unfold itemWrites. rewrite Hid, Hlinks. left.
  - intros h. destruct (last _) as [w|] eqn:Hlast.
    + intros [= <-]. by apply last_write_item in Hlast.
    + by rewrite lookup_empty.
Qed.

Lemma extractReferences_entries_witness :
  exists li, li ∈ scannedItems Samples.page [Samples.body_of_page] /\
             Attr Samples.page [li] "id" = Some "cite_note-1" /\
             last (itemLinks Samples.page li) = Some "https://archive.org/bio".
Proof.
  apply (extractReferences_entries Samples.page [Samples.body_of_page]
                                   "cite_note-1").
  vm_compute. reflexivity.
Defined.

(** ** Entries are external links *)

Lemma distinctKeys_children (t : NodeType) (d : string)
      (attrs : list Attribute) (cs : list Node) :
  distinctKeys (mkNode t d attrs cs) = true ->
  NoDup (map Key attrs) /\ Forall (fun c => distinctKeys c = true) cs.
Proof.
  simpl. intros H. apply andb_true_iff in H as [Hk Hcs].
  split; [by apply bool_decide_eq_true in Hk|]. clear Hk.
  induction cs as [|c cs IH]; [constructor|].
  apply andb_true_iff in Hcs as [Hc Hcs]. constructor; [done|by apply IH].
Qed.

(** The check by nodes gives the property by positions. *)
Lemma distinctKeys_sound (doc : Node) :
  distinctKeys doc = true -> attrs_distinct doc.
Proof.
  intros Hdoc q. revert doc Hdoc.
  induction q as [|i q IH]; intros doc Hdoc n Hn.
  - injection Hn as <-. destruct doc as [t d attrs cs].
    by apply distinctKeys_children in Hdoc as [? _].
  - simpl in Hn. destruct (children doc !! i) as [c|] eqn:Hc; [|done].
    apply (IH c); [|done].
    destruct doc as [t d attrs cs]. simpl in Hc.
    apply distinctKeys_children in Hdoc as [_ Hcs].
    rewrite Forall_forall in Hcs. apply Hcs.
    by apply list_elem_of_lookup_2 in Hc.
Qed.

(** With distinct keys, the value [Attr] returns is the one an attribute
    selector saw. *)
Lemma existsb_getAttributeValue (name v : string) (f : string -> bool)
      (attrs : list Attribute) :
  NoDup (map Key attrs) ->
  existsb (fun a => String.eqb (Key a) name && f (Val a)) attrs = true ->
  getAttributeValue name attrs = Some v -> f v = true.
Proof.
  induction attrs as [|a attrs IH]; intros Hnd Hex Hget; [done|].
  simpl in *. apply NoDup_cons in Hnd as [Hnotin Hnd].
  destruct (String.eqb (Key a) name) eqn:Hkey.
  - injection Hget as <-. simpl in Hex.
    apply orb_true_iff in Hex as [Hf|Hex]; [done|]. exfalso.
    apply existsb_exists in Hex as (a' & Hin & Ha').
    apply andb_true_iff in Ha' as [Hk' _].
    apply String.eqb_eq in Hkey, Hk'. apply Hnotin.
    rewrite Hkey, <- Hk'. apply list_elem_of_In, in_map.
    done.
  - simpl in Hex. by apply IH.
Qed.

Lemma Match_a_http_href (doc : Node) (q : path) (h : string) :
  attrs_distinct doc ->
  Match sel_a_http doc q = true ->
  Attr doc [q] "href" = Some h ->
  GoStrings.HasPrefix h "http" = true.
Proof.
  intros Hdoc Hm Hattr. apply Attr_singleton in Hattr as (n & Hn & Hget).
  simpl in Hm. apply andb_true_iff in Hm as [_ Hm].
  unfold matchNode in Hm. rewrite Hn in Hm.
  unfold matchAttribute in Hm. apply andb_true_iff in Hm as [_ Hex].
  apply (existsb_getAttributeValue "href" h
           (fun v => GoStrings.HasPrefix v "http") (html.Attr n));
    [by apply (Hdoc q)|done|done].
Qed.

Lemma itemLinks_http (doc : Node) (li : path) (h : string) :
  attrs_distinct doc -> h ∈ itemLinks doc li ->
  GoStrings.HasPrefix h "http" = true.
Proof.
  intros Hdoc Hh. apply elem_of_hrefs in Hh as (a & Ha & Hattr).
  apply elem_of_Find in Ha as (p & n & r & _ & _ & _ & -> & Hm).
  by apply (Match_a_http_href doc (p ++ r) h).
Qed.

Lemma last_elem_of {A : Type} (l : list A) (x : A) : last l = Some x -> x ∈ l.
Proof.
  intros H. apply last_Some in H as [l' ->]. apply elem_of_app. right. left.
Qed.

Lemma extractReferences_http (doc : Node) (d : Selection) (id h : string) :
  attrs_distinct doc ->
  extractReferences doc d !! id = Some h ->
  GoStrings.HasPrefix h "http" = true.
Proof.
  intros Hdoc Hh.
  rewrite extractReferences_writes, lookup_foldl_assign in Hh.
  destruct (last _) as [w|] eqn:Hlast; [|by rewrite lookup_empty in Hh].
  injection Hh as <-.
  apply last_write_item in Hlast as (li & _ & _ & Hl).
  apply (itemLinks_http doc li); [done|]. by apply last_elem_of.
Qed.

Lemma resolveHref_value (references : gmap string string) (h t : string) :
  resolveHref references h = Some t ->
  exists k, references !! k = Some t /\ GoStrings.HasPrefix k "cite_note-" = true.
Proof.
  unfold resolveHref. destruct (GoStrings.Contains h "#cite_note-"); [|done].
  intros Hl. eexists. split; [exact Hl|]. reflexivity.
Qed.

(** X6.  On a page whose elements have distinct attribute keys, every
    entry of the reference index begins with ["http"], and so does every
    target a cell of the page resolves to with that index: a citation of
    the page is the sentinel or a list of external links. *)
Theorem references_are_external_links (doc : Node) (d : Selection) :
  attrs_distinct doc ->
  (forall id h, extractReferences doc d !! id = Some h ->
                GoStrings.HasPrefix h "http" = true) /\
  (forall cell t, t ∈ resolvedTargets doc cell (extractReferences doc d) ->
                  GoStrings.HasPrefix t "http" = true).
Proof.
  intros Hdoc. split.
  - intros id h. by apply extractReferences_http.
  - intros cell t Ht. unfold resolvedTargets in Ht.
    apply list_elem_of_omap in Ht as (h & _ & Hres).
    apply resolveHref_value in Hres as (k & Hk & _).
    by apply (extractReferences_http doc d k t).
Qed.

Lemma references_are_external_links_witness :
  GoStrings.HasPrefix "https://archive.org/bio" "http" = true.
Proof.
  apply (references_are_external_links Samples.page [Samples.body_of_page]
           (distinctKeys_sound Samples.page eq_refl))
    with (id := "cite_note-1").
  vm_compute. reflexivity.
Defined.

(** ** Which keys a citation reads, and markers that resolve *)

Lemma omap_ext_all {A B : Type} (f g : A -> option B) (l : list A) :
  (forall x, f x = g x) -> omap f l = omap g l.
Proof.
  intros Hfg. induction l as [|x l IH]; [done|].
  cbn [omap list_omap]. rewrite Hfg. destruct (g x); [f_equal|]; apply IH.
Qed.

(** X7.  [extractCitations] reads the index at keys that begin with
    ["cite_note-"] only: two indexes that agree on those keys give the
    same citation for every cell, whatever else they hold; and every
    target it lists is the entry of such a key. *)
Theorem extractCitations_reads_note_keys_only
        (doc : Node) (cell : Selection) (r1 r2 : gmap string string) :
  (forall k, GoStrings.HasPrefix k "cite_note-" = true -> r1 !! k = r2 !! k) ->
  extractCitations doc cell r1 = extractCitations doc cell r2 /\
  (forall t, t ∈ resolvedTargets doc cell r1 ->
     exists k, GoStrings.HasPrefix k "cite_note-" = true /\ r1 !! k = Some t).
Proof.
  intros Hagree. split.
  - rewrite !extractCitations_markers. unfold resolvedTargets.
    rewrite (omap_ext_all (resolveHref r1) (resolveHref r2)); [done|].
    intros h. unfold resolveHref.
    destruct (GoStrings.Contains h "#cite_note-"); [|done]. by apply Hagree.
  - intros t Ht. unfold resolvedTargets in Ht.
    apply list_elem_of_omap in Ht as (h & _ & Hres).
    apply resolveHref_value in Hres as (k & ? & ?). by exists k.
Qed.

(** The sample index with an entry for the privacy link of a page footer
    added: the citation of the sample cell is the same. *)
Lemma extractCitations_reads_note_keys_only_witness :
  extractCitations Samples.page [Samples.cell_of_page] Samples.index =
  extractCitations Samples.page [Samples.cell_of_page]
    (<["footer-places-privacy" := "https://foundation.wikimedia.org/"]>
       Samples.index).
Proof.
  apply (extractCitations_reads_note_keys_only
           Samples.page [Samples.cell_of_page] Samples.index
           (<["footer-places-privacy" := "https://foundation.wikimedia.org/"]>
              Samples.index)).
  intros k Hk. symmetry. apply lookup_insert_ne.
  intros <-. vm_compute in Hk. discriminate Hk.
Defined.








(** ** The two row parsers on a label and value row *)

(** X9.  On a row that is no header row and whose cells are one [th]
    followed by one [td], the info-panel parser and the table parser do
    the same.  So when such a row with a label and a value lies in a
    table that is selected both as an info panel and as a [wikitable],
    its assertion is returned by both parsers: it comes twice. *)
Theorem row_parsers_agree_on_th_td_rows
        (doc : Node) (subject : string) (references : gmap string string)
        (row c0 c1 : path) :
  isHeaderRow doc [row] = false ->
  Find doc sel_th [row] = [c0] ->
  Find doc sel_td [row] = [c1] ->
  Find doc sel_td_th [row] = [c0; c1] ->
  (forall quads,
     infoboxRow doc subject references [row] quads =
     tableRow doc subject references [row] quads) /\
  (forall b region,
     region ∈ Find doc sel_infobox [b] ->
     region ∈ Find doc sel_wikitable [b] ->
     row ∈ Find doc sel_tr [region] ->
     infoboxLabel doc [row] <> "" -> infoboxValue doc [row] <> "" ->
     exists q, fromInfobox doc b q /\ fromTable doc b q).
Proof.
  intros Hh Hth Htd Hcells.
  assert (Hl : tableLabel doc [row] = infoboxLabel doc [row]).
  { unfold infoboxLabel, tableLabel. by rewrite Hth, Hcells. }
  assert (Hv : tableValue doc [row] = infoboxValue doc [row]).
  { unfold infoboxValue, tableValue. by rewrite Htd, Hcells. }
  assert (Hq : forall subject0 references0,
            tableQuad doc subject0 references0 row
            = infoboxQuad doc subject0 references0 row).
  { intros subject0 references0. unfold tableQuad, infoboxQuad.
    rewrite Hl, Hv. by rewrite Htd, Hcells. }
  split.
  - intros quads. rewrite infoboxRow_cases, tableRow_cases, Hh, Hl, Hv.
    by rewrite Htd, Hcells.
  - intros b region Hpanel Htable Hrow Hlabel Hvalue.
    exists (infoboxQuad doc (pageTitle doc [b]) (extractReferences doc [b]) row).
    split.
    + exists region, row. repeat split; done.
    + exists region, row. rewrite Hl, Hv, Hq. repeat split; done.
Qed.

Lemma row_parsers_agree_on_th_td_rows_witness :
  infoboxRow Samples.page_without_heading "" ∅ [[0; 1; 0; 0; 0]] [] =
  tableRow Samples.page_without_heading "" ∅ [[0; 1; 0; 0; 0]] [].
Proof.
  apply (row_parsers_agree_on_th_td_rows Samples.page_without_heading "" ∅
           [0; 1; 0; 0; 0] [0; 1; 0; 0; 0; 0] [0; 1; 0; 0; 0; 1]);
    reflexivity.
Defined.

(** ** Every extractor a program can hold *)

Section histories.
Variable normalize : string -> string.
Variable fetch : string -> Response.







End histories.





(* ===================================================================== *)
(** * Properties of the storage *)
(* ===================================================================== *)

(** ** A sample engine *)

#[local] Instance newerRow_dec : RelDecision newerRow.
Proof. intros r1 r2. unfold newerRow. apply _. Defined.

#[local] Instance newerRow_trans : Transitive newerRow.
Proof. intros r1 r2 r3. unfold newerRow. lia. Qed.

#[local] Instance newerRow_total : Total newerRow.
Proof. intros r1 r2. unfold newerRow. lia. Qed.

Lemma maxTimeText_none (rows : list (storage.Row (Time := nat))) :
  maxTimeText rows = None <-> rows = [].
Proof. destruct rows; simpl; split; congruence. Qed.

(** Seconds for times, [likeMatch] for [LIKE], a merge sort for
    [ORDER BY extracted_at DESC]. *)
Definition sampleEngine : storage.Engine (Time := nat) :=
  @storage.mkEngine nat likeMatch
    (fun t1 t2 => t2 <= t1)
    (merge_sort newerRow)
    maxTimeText
    (merge_sort_Permutation newerRow)
    (StronglySorted_merge_sort newerRow)
    maxTimeText_none.

#[local] Existing Instance sampleEngine.

(** ** Rows and quads *)

Lemma Forall_filter_keep {A : Type} (P Q : A -> Prop)
      `{!forall x, Decision (Q x)} (l : list A) :
  Forall P l -> Forall P (filter Q l).
Proof.
  rewrite !Forall_forall. intros Hall x Hx.
  apply list_elem_of_filter in Hx as [_ Hx]. by apply Hall.
Qed.

Section storage_facts.
Context {Time : Type} {engine : storage.Engine (Time := Time)}.

Local Abbreviation Row := (storage.Row (Time := Time)).
Local Abbreviation SQLiteStorage := (storage.SQLiteStorage (Time := Time)).

Lemma quad_of_storedRow (sourceURL : string) (t : Time) (q : Quad) :
  storage.quad_of (storedRow sourceURL t q) = q.
Proof. by destruct q. Qed.

Lemma foldl_insertQuad (sourceURL : string) (t : Time) (quads : list Quad) :
  forall tx,
    foldl (storage.insertQuad sourceURL t) tx quads =
    tx ++ map (storedRow sourceURL t) quads.
Proof.
  induction quads as [|q quads IH]; intros tx; simpl.
  - by rewrite app_nil_r.
  - rewrite IH. unfold storage.insertQuad. by rewrite <- app_assoc.
Qed.

(** [Store] on an open handle appends the rows of the quads. *)
Lemma Store_open (s : SQLiteStorage) (quads : list Quad)
      (sourceURL : string) (t : Time) :
  storage.closed s = false ->
  storage.Store s quads sourceURL t =
  (storage.mkStorage false (storage.table s ++ map (storedRow sourceURL t) quads),
   None).
Proof.
  intros Hopen. unfold storage.Store. rewrite Hopen.
  by rewrite foldl_insertQuad.
Qed.

Lemma Store_closed (s : SQLiteStorage) (quads : list Quad)
      (sourceURL : string) (t : Time) :
  storage.closed s = true ->
  storage.Store s quads sourceURL t =
  (s, Some (storage.Errorf "failed to begin transaction: %w" storage.ErrDBClosed)).
Proof. intros Hc. unfold storage.Store. by rewrite Hc. Qed.

Lemma scanRows_no_null (rows : list Row) :
  forall quads,
    Forall (fun r => is_Some (storage.citation r)) rows ->
    storage.scanRows rows quads = inl (quads ++ map storage.quad_of rows).
Proof.
  induction rows as [|r rows IH]; intros quads Hall; simpl.
  - by rewrite app_nil_r.
  - apply Forall_cons in Hall as [[c Hc] Hall].
    unfold storage.scan. rewrite Hc. rewrite IH by done.
    rewrite <- app_assoc. unfold storage.quad_of. by rewrite Hc.
Qed.

Lemma Forall_Permutation_citation (l k : list Row) :
  l ≡ₚ k ->
  Forall (fun r => is_Some (storage.citation r)) k ->
  Forall (fun r => is_Some (storage.citation r)) l.
Proof. intros Hp Hk. by rewrite Hp. Qed.

(** A query on an open handle over a table without NULL citations
    returns the quads of the rows that satisfy the condition. *)
Lemma query_open (s : SQLiteStorage) (cond : Row -> bool) :
  storage.closed s = false ->
  storage.no_null_citation s ->
  exists quads,
    storage.query s cond = inl quads /\
    quads ≡ₚ map storage.quad_of
               (filter (fun r => Is_true (cond r)) (storage.table s)).
Proof.
  intros Hopen Hnn. unfold storage.query. rewrite Hopen.
  eexists. split.
  - apply scanRows_no_null.
    apply (Forall_Permutation_citation _ _ (storage.order_desc_perm _)).
    by apply Forall_filter_keep.
  - simpl. by rewrite storage.order_desc_perm.
Qed.

Lemma query_closed (s : SQLiteStorage) (cond : Row -> bool) :
  storage.closed s = true ->
  storage.query s cond =
  inr (storage.Errorf "failed to query quads: %w" storage.ErrDBClosed).
Proof. intros Hc. unfold storage.query. by rewrite Hc. Qed.

Lemma storedRow_no_null (sourceURL : string) (t : Time) (quads : list Quad) :
  Forall (fun r => is_Some (storage.citation r))
         (map (storedRow sourceURL t) quads).
Proof. apply List.Forall_map, Forall_forall. intros q _. by eexists. Qed.

Lemma Store_no_null (s : SQLiteStorage) (quads : list Quad)
      (sourceURL : string) (t : Time) :
  storage.no_null_citation s ->
  storage.no_null_citation (storage.Store s quads sourceURL t).1.
Proof.
  intros Hnn. destruct (storage.closed s) eqn:Hc.
  - by rewrite Store_closed.
  - rewrite Store_open by done. unfold storage.no_null_citation. simpl.
    apply Forall_app. split; [done|apply storedRow_no_null].
Qed.

(** A table written by this package alone has no NULL citation. *)
Lemma written_no_null (s : SQLiteStorage) :
  storage.written s -> storage.no_null_citation s.
Proof.
  induction 1 as [|s quads u t _ IH|s _ IH|s s' _ IH Hopen].
  - constructor.
  - by apply Store_no_null.
  - done.
  - simpl in Hopen. by injection Hopen as <-.
Qed.

End storage_facts.

(** ** Store and the queries *)

Lemma Is_true_eqb (a b : string) : Is_true (String.eqb a b) <-> a = b.
Proof. rewrite Is_true_true. apply String.eqb_eq. Qed.

Lemma list_inclusion_length {A : Type} `{!EqDecision A} (l k : list A) :
  NoDup l -> (forall x, x ∈ l -> x ∈ k) -> length l <= length k.
Proof.
  intros Hnd Hin. apply submseteq_length, NoDup_submseteq; [done|].
  intros x. apply Hin.
Qed.

Lemma remove_dups_length_le {A : Type} `{!EqDecision A} (l : list A) :
  length (remove_dups l) <= length l.
Proof.
  induction l as [|x l IH]; [done|]. simpl.
  destruct (decide_rel elem_of x l); simpl; lia.
Qed.

Lemma remove_dups_length_app {A : Type} `{!EqDecision A} (l k : list A) :
  length (remove_dups l) <= length (remove_dups (l ++ k)).
Proof.
  apply list_inclusion_length; [apply NoDup_remove_dups|].
  intros x. rewrite !elem_of_remove_dups, elem_of_app. tauto.
Qed.

Lemma remove_dups_length_one_more {A : Type} `{!EqDecision A}
      (l k : list A) (y : A) :
  Forall (fun x => x = y) k ->
  length (remove_dups (l ++ k)) <= length (remove_dups l) + 1.
Proof.
  intros Hk.
  replace (length (remove_dups l) + 1) with (length (remove_dups l ++ [y]))
    by (rewrite length_app; simpl; lia).
  apply list_inclusion_length; [apply NoDup_remove_dups|].
  intros x. rewrite elem_of_remove_dups, !elem_of_app, elem_of_remove_dups.
  intros [Hx|Hx]; [by left|right].
  rewrite Forall_forall in Hk. rewrite (Hk x Hx). left.
Qed.

Lemma filter_length_impl {A : Type} (P Q : A -> Prop)
      `{!forall x, Decision (P x)} `{!forall x, Decision (Q x)} (l : list A) :
  (forall x, P x -> Q x) -> length (filter P l) <= length (filter Q l).
Proof.
  intros HPQ. induction l as [|x l IH]; [done|].
  destruct (decide (P x)) as [HP|HP].
  - rewrite filter_cons_True by done.
    rewrite (filter_cons_True Q) by (by apply HPQ). simpl. lia.
  - rewrite filter_cons_False by done.
    destruct (decide (Q x)).
    + rewrite (filter_cons_True Q) by done. simpl. lia.
    + by rewrite (filter_cons_False Q) by done.
Qed.

Section storage_theorems.
Context {Time : Type} {engine : storage.Engine (Time := Time)}.

Local Abbreviation Row := (storage.Row (Time := Time)).
Local Abbreviation SQLiteStorage := (storage.SQLiteStorage (Time := Time)).

Lemma filter_source_stored_same (url : string) (t : Time) (quads : list Quad) :
  filter (fun r : Row => Is_true (String.eqb (storage.source_url r) url))
         (map (storedRow url t) quads)
  = map (storedRow url t) quads.
Proof.
  apply filter_True_id. intros r Hr.
  apply list_elem_of_fmap in Hr as (q & -> & _). by apply Is_true_eqb.
Qed.

Lemma filter_source_stored_other (url url' : string) (t : Time)
      (quads : list Quad) :
  url' <> url ->
  filter (fun r : Row => Is_true (String.eqb (storage.source_url r) url'))
         (map (storedRow url t) quads)
  = [].
Proof.
  intros Hne. apply filter_False_nil. intros r Hr.
  apply list_elem_of_fmap in Hr as (q & -> & _).
  rewrite Is_true_eqb. simpl. congruence.
Qed.

Lemma map_quad_of_stored (url : string) (t : Time) (quads : list Quad) :
  map storage.quad_of (map (storedRow url t) quads) = quads.
Proof.
  induction quads as [|q quads IH]; [done|].
  simpl. by rewrite quad_of_storedRow, IH.
Qed.

(** The rows of a source before and after a [Store] for it. *)
Lemma GetBySourceURL_after_Store
      (s : SQLiteStorage) (quads : list Quad) (url : string) (t : Time) :
  storage.closed s = false ->
  storage.no_null_citation s ->
  exists before after,
    storage.GetBySourceURL s url = inl before /\
    storage.GetBySourceURL
      (storage.mkStorage false (storage.table s ++ map (storedRow url t) quads))
      url = inl after /\
    after ≡ₚ before ++ quads.
Proof.
  intros Hopen Hnn.
  pose proof (Store_no_null s quads url t Hnn) as Hnn'.
  rewrite Store_open in Hnn' by done. cbn [fst] in Hnn'.
  set (s' := storage.mkStorage false
               (storage.table s ++ map (storedRow url t) quads)) in *.
  destruct (query_open s
              (fun r => String.eqb (storage.source_url r) url) Hopen Hnn)
    as (before & Hb & Hpb).
  destruct (query_open s'
              (fun r => String.eqb (storage.source_url r) url) eq_refl Hnn')
    as (after & Ha & Hpa).
  exists before, after. split; [done|]. split; [done|].
  rewrite Hpa, Hpb. unfold s'. cbn [storage.table].
  rewrite filter_app, filter_source_stored_same, map_app.
  by rewrite map_quad_of_stored.
Qed.

(** X12.  What [Store] puts in is what [GetBySourceURL] gets out.  On an
    open handle over a table without NULL citations, [Store] returns no
    error, and afterwards [GetBySourceURL] for the source URL returns, up
    to the order of the rows, what it returned before together with the
    quads just stored; for every other URL it returns what it returned
    before. *)
Theorem Store_then_GetBySourceURL
        (s : SQLiteStorage) (quads : list Quad) (url : string) (t : Time) :
  storage.closed s = false ->
  storage.no_null_citation s ->
  (storage.Store s quads url t).2 = None /\
  (exists before after,
      storage.GetBySourceURL s url = inl before /\
      storage.GetBySourceURL (storage.Store s quads url t).1 url = inl after /\
      after ≡ₚ before ++ quads) /\
  (forall url', url' <> url ->
     exists before after,
       storage.GetBySourceURL s url' = inl before /\
       storage.GetBySourceURL (storage.Store s quads url t).1 url' = inl after /\
       after ≡ₚ before).
Proof.
  intros Hopen Hnn.
  pose proof (Store_no_null s quads url t Hnn) as Hnn'.
  rewrite Store_open in * by done. cbn [fst snd] in *.
  set (s' := storage.mkStorage false
               (storage.table s ++ map (storedRow url t) quads)) in *.
  split; [done|]. split.
  - by apply GetBySourceURL_after_Store.
  - intros url' Hne.
    destruct (query_open s
                (fun r => String.eqb (storage.source_url r) url') Hopen Hnn)
      as (before & Hb & Hpb).
    destruct (query_open s'
                (fun r => String.eqb (storage.source_url r) url') eq_refl Hnn')
      as (after & Ha & Hpa).
    exists before, after. split; [done|]. split; [done|].
    rewrite Hpa, Hpb. unfold s'. cbn [storage.table].
    rewrite filter_app, filter_source_stored_other by done.
    by rewrite app_nil_r.
Qed.

(** X13.  The statistics follow the stores.  On an open handle [GetStats]
    succeeds; an empty table gives 0, 0, 0 and ["Never"]; after [Store]
    the total is the total before plus the number of quads stored, the
    number of subjects does not go down, the number of sources goes up by
    at most one, and neither exceeds the total. *)
Theorem GetStats_after_Store
        (s : SQLiteStorage) (quads : list Quad) (url : string) (t : Time) :
  storage.closed s = false ->
  exists st st',
    storage.GetStats s = inl st /\
    storage.GetStats (storage.Store s quads url t).1 = inl st' /\
    (storage.table s = [] -> st = storage.mkStats 0 0 0 "Never") /\
    storage.TotalQuads st' = storage.TotalQuads st + length quads /\
    storage.TotalSubjects st <= storage.TotalSubjects st' /\
    storage.TotalSources st <= storage.TotalSources st' /\
    storage.TotalSources st' <= storage.TotalSources st + 1 /\
    storage.TotalSubjects st' <= storage.TotalQuads st' /\
    storage.TotalSources st' <= storage.TotalQuads st'.
Proof.
  intros Hopen. rewrite Store_open by done. unfold storage.GetStats.
  rewrite Hopen. cbn [fst storage.closed storage.table].
  eexists _, _. split; [reflexivity|]. split; [reflexivity|].
  cbn [storage.TotalQuads storage.TotalSubjects storage.TotalSources].
  repeat split.
  - intros ->. simpl.
    by rewrite (proj2 (storage.max_text_none []) eq_refl).
  - by rewrite length_app, length_map.
  - rewrite map_app. apply remove_dups_length_app.
  - rewrite map_app. apply remove_dups_length_app.
  - rewrite map_app. apply (remove_dups_length_one_more _ _ url).
    apply Forall_forall. intros x Hx.
    apply list_elem_of_fmap in Hx as (r & -> & Hr).
    apply list_elem_of_fmap in Hr as (q & -> & _). reflexivity.
  - etrans; [apply remove_dups_length_le|]. by rewrite length_map.
  - etrans; [apply remove_dups_length_le|]. by rewrite length_map.
Qed.

(** X14.  [Search] finds what the narrower queries find.  On an open
    handle over a table without NULL citations, every quad that
    [GetBySubject] or [GetByRelationship] returns for a text is returned
    by [Search] for the same text, and [Search] returns at least as many
    quads. *)
Theorem Search_subsumes_field_queries (s : SQLiteStorage) (text : string) :
  storage.closed s = false ->
  storage.no_null_citation s ->
  exists bySubject byRelationship found,
    storage.GetBySubject s text = inl bySubject /\
    storage.GetByRelationship s text = inl byRelationship /\
    storage.Search s text = inl found /\
    (forall q, q ∈ bySubject -> q ∈ found) /\
    (forall q, q ∈ byRelationship -> q ∈ found) /\
    length bySubject <= length found /\
    length byRelationship <= length found.
Proof.
  intros Hopen Hnn. unfold storage.GetBySubject, storage.GetByRelationship,
    storage.Search.
  destruct (query_open s
    (fun r => storage.like ("%" +:+ text +:+ "%") (storage.subject r))
    Hopen Hnn) as (qs1 & H1 & Hp1).
  destruct (query_open s
    (fun r => storage.like ("%" +:+ text +:+ "%") (storage.relationship r))
    Hopen Hnn) as (qs2 & H2 & Hp2).
  destruct (query_open s
    (fun r => storage.like ("%" +:+ text +:+ "%") (storage.subject r)
              || storage.like ("%" +:+ text +:+ "%") (storage.relationship r)
              || storage.like ("%" +:+ text +:+ "%") (storage.value r)
              || storage.likeNullable ("%" +:+ text +:+ "%") (storage.citation r))
    Hopen Hnn) as (qs3 & H3 & Hp3).
  exists qs1, qs2, qs3. split; [done|]. split; [done|]. split; [done|].
  repeat split.
  - intros q. rewrite Hp1, Hp3. intros Hq.
    apply list_elem_of_fmap in Hq as (r & -> & Hr).
    apply list_elem_of_fmap. exists r. split; [done|].
    apply list_elem_of_filter in Hr as [Hl Hr].
    apply list_elem_of_filter. split; [|done].
    apply Is_true_true in Hl. apply Is_true_true. by rewrite Hl.
  - intros q. rewrite Hp2, Hp3. intros Hq.
    apply list_elem_of_fmap in Hq as (r & -> & Hr).
    apply list_elem_of_fmap. exists r. split; [done|].
    apply list_elem_of_filter in Hr as [Hl Hr].
    apply list_elem_of_filter. split; [|done].
    apply Is_true_true in Hl. apply Is_true_true.
    rewrite Hl. by rewrite orb_true_r.
  - rewrite Hp1, Hp3, !length_map. apply filter_length_impl.
    intros r Hl. apply Is_true_true in Hl. apply Is_true_true. by rewrite Hl.
  - rewrite Hp2, Hp3, !length_map. apply filter_length_impl.
    intros r Hl. apply Is_true_true in Hl. apply Is_true_true.
    rewrite Hl. by rewrite orb_true_r.
Qed.

(** X15.  When the database file is written by this package alone, a
    query never fails on a row: each of the four queries and [GetStats]
    returns a result exactly when the handle is open, and [Store] changes
    the table exactly when the handle is open. *)
Theorem written_storage_fails_only_when_closed
        (s : SQLiteStorage) (text : string) (quads : list Quad) (t : Time) :
  storage.written s ->
  ((exists r, storage.GetBySubject s text = inl r) <-> storage.closed s = false) /\
  ((exists r, storage.GetByRelationship s text = inl r)
     <-> storage.closed s = false) /\
  ((exists r, storage.GetBySourceURL s text = inl r)
     <-> storage.closed s = false) /\
  ((exists r, storage.Search s text = inl r) <-> storage.closed s = false) /\
  ((exists st, storage.GetStats s = inl st) <-> storage.closed s = false) /\
  ((storage.Store s quads text t).2 = None <-> storage.closed s = false) /\
  (storage.closed s = true ->
   storage.table (storage.Store s quads text t).1 = storage.table s).
Proof.
  intros Hw. apply written_no_null in Hw.
  assert (Hq : forall cond : Row -> bool,
    (exists r, storage.query s cond = inl r) <-> storage.closed s = false).
  { intros cond. destruct (storage.closed s) eqn:Hc.
    - rewrite query_closed by done. split; [by intros [r ?]|done].
    - split; [done|]. intros _.
      destruct (query_open s cond Hc Hw) as (r & Hr & _). by exists r. }
  split; [apply Hq|]. split; [apply Hq|]. split; [apply Hq|].
  split; [apply Hq|].
  unfold storage.GetStats, storage.Store.
  destruct (storage.closed s); simpl.
  - split; [split; [by intros [st ?]|done]|]. split; [split; done|done].
  - split; [split; [done|by eexists]|]. split; [done|done].
Qed.

End storage_theorems.

(** ** The storage theorems on the sample engine *)

Lemma sampleTable_no_null :
  storage.no_null_citation (storage.mkStorage false sampleTable).
Proof. repeat constructor; by eexists. Qed.

Lemma Store_then_GetBySourceURL_witness :
  (storage.Store (storage.mkStorage false sampleTable)
                 [mkQuad "Plain" "Kind" "page" "no citation"]
                 Samples.plain_url 200).2 = None.
Proof.
  apply (Store_then_GetBySourceURL (engine := sampleEngine)
           (storage.mkStorage false sampleTable)
           [mkQuad "Plain" "Kind" "page" "no citation"] Samples.plain_url 200).
  - reflexivity.
  - apply sampleTable_no_null.
Defined.

Lemma GetStats_after_Store_witness :
  exists st st',
    storage.GetStats (engine := sampleEngine) (storage.mkStorage false sampleTable)
      = inl st /\
    storage.GetStats
      (storage.Store (storage.mkStorage false sampleTable)
         [mkQuad "Plain" "Kind" "page" "no citation"] Samples.plain_url 200).1
      = inl st' /\
    (storage.table (storage.mkStorage false sampleTable) = [] ->
     st = storage.mkStats 0 0 0 "Never") /\
    storage.TotalQuads st' = storage.TotalQuads st + 1 /\
    storage.TotalSubjects st <= storage.TotalSubjects st' /\
    storage.TotalSources st <= storage.TotalSources st' /\
    storage.TotalSources st' <= storage.TotalSources st + 1 /\
    storage.TotalSubjects st' <= storage.TotalQuads st' /\
    storage.TotalSources st' <= storage.TotalQuads st'.
Proof.
  apply (GetStats_after_Store (engine := sampleEngine)
           (storage.mkStorage false sampleTable)
           [mkQuad "Plain" "Kind" "page" "no citation"] Samples.plain_url 200).
  reflexivity.
Defined.

Lemma Search_subsumes_field_queries_witness :
  exists bySubject byRelationship found,
    storage.GetBySubject (engine := sampleEngine)
      (storage.mkStorage false sampleTable) "language" = inl bySubject /\
    storage.GetByRelationship (engine := sampleEngine)
      (storage.mkStorage false sampleTable) "language" = inl byRelationship /\
    storage.Search (engine := sampleEngine)
      (storage.mkStorage false sampleTable) "language" = inl found /\
    (forall q, q ∈ bySubject -> q ∈ found) /\
    (forall q, q ∈ byRelationship -> q ∈ found) /\
    length bySubject <= length found /\
    length byRelationship <= length found.
Proof.
  apply (Search_subsumes_field_queries (engine := sampleEngine)
           (storage.mkStorage false sampleTable) "language").
  - reflexivity.
  - apply sampleTable_no_null.
Defined.

(** A handle that stored the two rows of the sample page, and the same
    handle closed: on the first a search scans the stored rows and
    returns, and a further [Store] succeeds; on the second the search
    fails, and [Store] fails and leaves the two rows as they are. *)
Lemma written_storage_fails_only_when_closed_witness :
  let stored :=
    (storage.Store (Time := nat) (storage.mkStorage false [])
       [ mkQuad "Example Language" "Designed by" "Robert X"
                "https://example.com/bio";
         mkQuad "Example Language" "A" "B" "no citation" ]
       Samples.url 100).1 in
  let shut := (storage.Close stored).1 in
  let more := [mkQuad "Plain" "Kind" "page" "no citation"] in
  length (storage.table stored) = 2 /\
  (exists r, storage.Search (engine := sampleEngine) stored "language" = inl r) /\
  (storage.Store stored more Samples.plain_url 200).2 = None /\
  ~ (exists r, storage.Search (engine := sampleEngine) shut "language" = inl r) /\
  (storage.Store shut more Samples.plain_url 200).2 <> None /\
  storage.table (storage.Store shut more Samples.plain_url 200).1 =
  storage.table stored.
Proof.
  intros stored shut more.
  assert (Hstored : storage.written stored)
    by apply storage.written_Store, storage.written_new.
  assert (Hshut : storage.written shut)
    by apply storage.written_Close, Hstored.
  destruct (written_storage_fails_only_when_closed (engine := sampleEngine)
              stored "language" more 200 Hstored)
    as (_ & _ & _ & Hsearch & _).
  destruct (written_storage_fails_only_when_closed (engine := sampleEngine)
              stored Samples.plain_url more 200 Hstored)
    as (_ & _ & _ & _ & _ & Hstore & _).
  destruct (written_storage_fails_only_when_closed (engine := sampleEngine)
              shut "language" more 200 Hshut)
    as (_ & _ & _ & Hsearch' & _).
  destruct (written_storage_fails_only_when_closed (engine := sampleEngine)
              shut Samples.plain_url more 200 Hshut)
    as (_ & _ & _ & _ & _ & Hstore' & Hkept).
  split; [reflexivity|]. split; [by apply Hsearch|].
  split; [by apply Hstore|]. split; [|split].
  - intros H. apply Hsearch' in H. discriminate H.
  - intros H. apply Hstore' in H. discriminate H.
  - by apply Hkept.
Defined.

Example sample_GetBySubject :
  storage.GetBySubject (engine := sampleEngine)
    (storage.mkStorage false sampleTable) "example LANG"
  = inl [ mkQuad "Example Language" "Designed by" "Robert X"
                 "https://example.com/bio";
          mkQuad "Example Language" "A" "B" "no citation" ].
Proof. vm_compute. reflexivity. Qed.

(* ===================================================================== *)
(** * Properties of the commands *)
(* ===================================================================== *)

(** ** Reading the csv lines back *)

Lemma quoteFree_cons (c : Ascii.ascii) (s : string) :
  cmd.quoteFree (String c s) -> c <> "034"%char /\ cmd.quoteFree s.
Proof.
  unfold cmd.quoteFree, cmd.DQ. simpl. intros H.
  apply orb_false_iff in H as [Hc Hs]. split; [|done].
  intros ->. simpl in Hc. done.
Qed.

(** Two fields without a double quote, each followed by one, are read
    back apart. *)
Lemma split_at_quote (a b x y : string) :
  cmd.quoteFree a -> cmd.quoteFree b ->
  a +:+ cmd.DQ +:+ x = b +:+ cmd.DQ +:+ y -> a = b /\ x = y.
Proof.
  revert b. induction a as [|c a IH]; intros b Ha Hb Heq.
  - destruct b as [|d b].
    + rewrite !string_app_nil_l in Heq. unfold cmd.DQ in Heq.
      rewrite !string_app_cons, !string_app_nil_l in Heq.
      by injection Heq as ->.
    + exfalso. apply quoteFree_cons in Hb as [Hd _]. apply Hd.
      rewrite string_app_nil_l in Heq. unfold cmd.DQ in Heq.
      rewrite !string_app_cons, string_app_nil_l in Heq.
      by injection Heq as <- _.
  - destruct b as [|d b].
    + exfalso. apply quoteFree_cons in Ha as [Hc _]. apply Hc.
      rewrite string_app_nil_l in Heq. unfold cmd.DQ in Heq.
      rewrite !string_app_cons, string_app_nil_l in Heq.
      by injection Heq as -> _.
    + rewrite !string_app_cons in Heq. injection Heq as -> Heq.
      apply quoteFree_cons in Ha as [_ Ha]. apply quoteFree_cons in Hb as [_ Hb].
      destruct (IH b Ha Hb Heq) as [-> ->]. done.
Qed.

Lemma csvLine_app (q : Quad) (rest : string) :
  cmd.csvLine q +:+ rest =
  String "034"%char (Subject q +:+ cmd.DQ +:+
    String ","%char (String "034"%char (Relationship q +:+ cmd.DQ +:+
      String ","%char (String "034"%char (Value q +:+ cmd.DQ +:+
        String ","%char (String "034"%char (Citation q +:+ cmd.DQ +:+
          String "010"%char rest))))))).
Proof.
  unfold cmd.csvLine, cmd.DQ, cmd.LF.
  rewrite !string_app_assoc.
  rewrite ?string_app_cons, ?string_app_nil_l.
  repeat (f_equal; rewrite ?string_app_assoc, ?string_app_cons, ?string_app_nil_l).
Qed.

Lemma csvLine_inj (q1 q2 : Quad) (rest1 rest2 : string) :
  cmd.quadQuoteFree q1 -> cmd.quadQuoteFree q2 ->
  cmd.csvLine q1 +:+ rest1 = cmd.csvLine q2 +:+ rest2 ->
  q1 = q2 /\ rest1 = rest2.
Proof.
  intros (Hs1 & Hr1 & Hv1 & Hc1) (Hs2 & Hr2 & Hv2 & Hc2) Heq.
  rewrite !csvLine_app in Heq. injection Heq as Heq.
  apply split_at_quote in Heq as [Hs Heq]; [|done|done].
  injection Heq as Heq.
  apply split_at_quote in Heq as [Hr Heq]; [|done|done].
  injection Heq as Heq.
  apply split_at_quote in Heq as [Hv Heq]; [|done|done].
  injection Heq as Heq.
  apply split_at_quote in Heq as [Hc Heq]; [|done|done].
  injection Heq as Heq.
  split; [|done]. destruct q1, q2. simpl in *. by subst.
Qed.

Lemma csvLines_cons (q : Quad) (quads : list Quad) :
  cmd.csvLines (q :: quads) = cmd.csvLine q +:+ cmd.csvLines quads.
Proof. reflexivity. Qed.

(** X16.  The csv output of the query command can be read back when no
    field holds a double quote: two lists of such quads with the same csv
    lines are the same list.  (The fields are written between double
    quotes as they are, with no escaping.) *)
Theorem csv_lines_determine_the_quads (quads1 quads2 : list Quad) :
  Forall cmd.quadQuoteFree quads1 ->
  Forall cmd.quadQuoteFree quads2 ->
  cmd.printCSV quads1 = cmd.printCSV quads2 ->
  quads1 = quads2.
Proof.
  intros H1 H2 Heq. unfold cmd.printCSV in Heq.
  apply (inj (String.append _)) in Heq. apply (inj (String.append _)) in Heq.
  revert quads2 H2 Heq.
  induction quads1 as [|q1 quads1 IH]; intros quads2 H2 Heq.
  - destruct quads2 as [|q2 quads2]; [done|].
    rewrite csvLines_cons, csvLine_app in Heq. discriminate Heq.
  - destruct quads2 as [|q2 quads2].
    + rewrite csvLines_cons, csvLine_app in Heq. discriminate Heq.
    + apply Forall_cons in H1 as [Hq1 H1]. apply Forall_cons in H2 as [Hq2 H2].
      rewrite !csvLines_cons in Heq.
      apply csvLine_inj in Heq as [-> Heq]; [|done|done].
      f_equal. by apply IH.
Qed.

Lemma csv_lines_determine_the_quads_witness :
  [mkQuad "Example Language" "A" "B" "no citation"] =
  [mkQuad "Example Language" "A" "B" "no citation"].
Proof.
  apply csv_lines_determine_the_quads.
  - repeat constructor.
  - repeat constructor.
  - reflexivity.
Defined.

(** ** The commands on the database file *)

Section command_theorems.
Context {Time : Type} {engine : storage.Engine (Time := Time)}.
Variable encodeJSON : list Quad -> string.
Variable normalize : string -> string.
Variable fetch : string -> Response.

Local Abbreviation DBFile := (storage.DBFile (Time := Time)).

(** Opening a file this package left gives an open handle over a table
    without NULL citations. *)
Lemma NewSQLiteStorage_ownFile (file : DBFile) :
  ownFile file ->
  exists s, storage.NewSQLiteStorage file = inl s /\
            storage.closed s = false /\ storage.no_null_citation s.
Proof.
  destruct file as [|rows|reason]; intros Hown; [| |done].
  - eexists. split; [reflexivity|]. split; [done|constructor].
  - eexists. split; [reflexivity|]. split; [done|exact Hown].
Qed.

Lemma pickQuery_open (s : storage.SQLiteStorage) (flags : cmd.QueryFlags) :
  storage.closed s = false -> storage.no_null_citation s ->
  cmd.pickQuery s flags = None \/
  exists quads, cmd.pickQuery s flags = Some (inl quads).
Proof.
  intros Hopen Hnn. unfold cmd.pickQuery.
  unfold storage.GetBySubject, storage.GetByRelationship,
    storage.GetBySourceURL, storage.Search.
  repeat (match goal with
          | |- context [nonEmpty ?x] => destruct (nonEmpty x)
          end;
          [right;
           match goal with
           | |- context [storage.query s ?c] =>
               destruct (query_open s c Hopen Hnn) as (quads & Hq & _);
               exists quads; by rewrite Hq
           end|]).
  by left.
Qed.

(** X17.  The query command does not exit with an error on a database
    file this package left (no file yet, or a table without NULL
    citations): whatever the flags, it ends with what it printed. *)
Theorem queryRun_succeeds_on_own_file (file : DBFile) (flags : cmd.QueryFlags) :
  ownFile file ->
  exists out, cmd.queryRun encodeJSON file flags = cmd.Done out.
Proof.
  intros Hown.
  destruct (NewSQLiteStorage_ownFile file Hown) as (s & Hs & Hopen & Hnn).
  unfold cmd.queryRun. rewrite Hs.
  destruct (cmd.queryStats flags).
  - unfold storage.GetStats. rewrite Hopen. by eexists.
  - destruct (pickQuery_open s flags Hopen Hnn) as [->|[quads ->]];
      [by eexists|].
    destruct (length quads =? 0); by eexists.
Qed.

(** X18.  What the store command stores, a query by source finds.  On a
    database file this package left, for a URL that contains
    ["wikipedia.org"] and serves a page, the store command ends normally
    and leaves a file on which [GetBySourceURL] for the URL returns, up
    to the order of the rows, what it returned before together with the
    extraction of the page. *)
Theorem storeRun_then_GetBySourceURL
        (file : DBFile) (now : Time) (url : string) (doc : Node) :
  ownFile file ->
  GoStrings.Contains url "wikipedia.org" = true ->
  fetch url = Page doc ->
  exists out file',
    cmd.storeRun normalize fetch file now url = (cmd.Done out, file') /\
    ownFile file' /\
    exists s s' before after,
      storage.NewSQLiteStorage file = inl s /\
      storage.NewSQLiteStorage file' = inl s' /\
      storage.GetBySourceURL s url = inl before /\
      storage.GetBySourceURL s' url = inl after /\
      after ≡ₚ before ++ extract doc.
Proof.
  intros Hown Hwiki Hpage.
  destruct (NewSQLiteStorage_ownFile file Hown) as (s & Hs & Hopen & Hnn).
  unfold cmd.storeRun. rewrite Hwiki, Hs. cbn [negb].
  destruct (ExtractFromURL_unvisited normalize fetch NewExtractor url doc
              callbacks_in_frames_new (not_elem_of_empty (normalize url))
              Hpage)
    as (-> & _ & _).
  pose proof (Store_no_null s (extract doc) url now Hnn) as Hnn'.
  rewrite Store_open in * by done. cbn [fst] in Hnn'.
  eexists _, _. split; [reflexivity|].
  split; [exact Hnn'|].
  destruct (GetBySourceURL_after_Store s (extract doc) url now Hopen Hnn)
    as (before & after & Hb & Ha & Hp).
  exists s, (storage.mkStorage false
               (storage.table s ++ map (storedRow url now) (extract doc))),
    before, after.
  repeat split; try done.
Qed.

End command_theorems.

Lemma queryRun_succeeds_on_own_file_witness :
  exists out,
    cmd.queryRun (fun _ => "[]") (storage.Database sampleTable)
                 (cmd.mkFlags "" "" Samples.url "" false "csv")
    = cmd.Done out.
Proof.
  apply (queryRun_succeeds_on_own_file (engine := sampleEngine)).
  apply sampleTable_no_null.
Defined.

Lemma storeRun_then_GetBySourceURL_witness :
  exists out file',
    cmd.storeRun Samples.canonical Samples.web
                 (storage.Database sampleTable) 200 Samples.url
    = (cmd.Done out, file') /\
    ownFile file' /\
    exists s s' before after,
      storage.NewSQLiteStorage (storage.Database sampleTable) = inl s /\
      storage.NewSQLiteStorage file' = inl s' /\
      storage.GetBySourceURL s Samples.url = inl before /\
      storage.GetBySourceURL s' Samples.url = inl after /\
      after ≡ₚ before ++ extract Samples.page.
Proof.
  apply (storeRun_then_GetBySourceURL (engine := sampleEngine)
           Samples.canonical Samples.web).
  - apply sampleTable_no_null.
  - reflexivity.
  - reflexivity.
Defined.

Example sample_query_csv :
  cmd.queryRun (fun _ => "[]") (storage.Database sampleTable)
               (cmd.mkFlags "" "" "" "designed" false "csv")
  = cmd.Done
      ("Found 1 quads:" +:+ cmd.LF +:+ cmd.LF +:+
       "Subject,Relationship,Value,Citation" +:+ cmd.LF +:+
       cmd.DQ +:+ "Example Language" +:+ cmd.DQ +:+ "," +:+
       cmd.DQ +:+ "Designed by" +:+ cmd.DQ +:+ "," +:+
       cmd.DQ +:+ "Robert X" +:+ cmd.DQ +:+ "," +:+
       cmd.DQ +:+ "https://example.com/bio" +:+ cmd.DQ +:+ cmd.LF).
Proof. vm_compute. reflexivity. Qed.

Example sample_store_rejects_other_sites :
  cmd.storeRun Samples.canonical Samples.web
               (storage.Database sampleTable) 200
               "https://example.com/page"
  = (cmd.Fatal "URL must be a Wikipedia page" cmd.NoError,
     storage.Database sampleTable).
Proof. reflexivity. Qed.
